(** * A circuit breaker with a rolling window of outcome counts

    Shallow embedding of package [breaker]: the [CircuitBreaker] with its
    three states, the rolling window of [Counts] frames with its summary,
    the default policies and the guarded [Execute].

    Go's [uint64] is a [Z] reduced modulo [2^64]; [float64] is the IEEE 754
    binary64 format of [SpecFloat]; a slice is a [list]; the methods run in
    a small state monad whose computations may panic, with Go's [defer]
    and [recover] as combinators; goroutines are counted by the phase
    they are in and advance by their own steps. *)

From Stdlib Require Import String ZArith List Bool Lia.
From Stdlib Require Import Floats.SpecFloat.
Import ListNotations.

Local Open Scope Z_scope.

(** ** Machine integers *)

Module U64.
Definition modulus : Z := 2 ^ 64.
Definition wrap (z : Z) : Z := z mod modulus.
Definition add (a b : Z) : Z := wrap (a + b).
Definition sub (a b : Z) : Z := wrap (a - b).
Definition mul (a b : Z) : Z := wrap (a * b).
Definition in_range (z : Z) : Prop := 0 <= z < modulus.
End U64.

Module I64.
Definition half : Z := 2 ^ 63.
Definition wrap (z : Z) : Z := (z + half) mod (2 ^ 64) - half.
Definition mul (a b : Z) : Z := wrap (a * b).
End I64.

(** ** binary64 *)

Module F64.
Definition prec : Z := 53.
Definition emax : Z := 1024.
(** [float64(n)] for an unsigned integer, and an integer constant. *)
Definition of_Z (n : Z) : spec_float := binary_normalize prec emax n 0 false.
Definition div : spec_float -> spec_float -> spec_float := SFdiv prec emax.
Definition mul : spec_float -> spec_float -> spec_float := SFmul prec emax.
(** [x >= y]; false as soon as one side is a NaN. *)
Definition geb (x y : spec_float) : bool := SFleb y x.
End F64.

(** ** Data model *)

Inductive State : Set := Closed | HalfOpen | Open.

Definition State_eqb (a b : State) : bool :=
  match a, b with
  | Closed, Closed | HalfOpen, HalfOpen | Open, Open => true
  | _, _ => false
  end.

Record Counts : Set := mkCounts { Total : Z; Fail : Z; Success : Z }.

(** [Counts{}] *)
Definition zeroCounts : Counts := mkCounts 0 0 0.

Definition valid_counts (c : Counts) : Prop :=
  U64.in_range (Total c) /\ U64.in_range (Fail c) /\ U64.in_range (Success c).

Record configuration : Set := mkConfiguration {
  windowRoll : Z;
  windowFrame : Z;
  halfOpenTimeout : Z
}.

(** [time.Second], in nanoseconds. *)
Definition time_Second : Z := 1000000000.

(** ** Default policies *)

Definition defaultCanTrip (summary : Counts) : bool :=
  (10 <? Total summary)
  && F64.geb (F64.mul (F64.div (F64.of_Z (Fail summary)) (F64.of_Z (Total summary)))
                      (F64.of_Z 100))
             (F64.of_Z 60).

(** The guard [Total > 100] comes first, so the integer division never sees
    a zero divisor; [Z.div] is Go's [/] on [uint64] operands. *)
Definition defaultFromHalfOpenToState (summary : Counts) : State :=
  if 0 <? Fail summary then Open
  else if (100 <? Total summary)
          && (U64.mul (Fail summary / Total summary) 100 <? 99)
       then Closed
       else HalfOpen.

(** ** Options *)

Record optionsConfiguration : Type := mkOptions {
  opt_windowFrame : Z;
  opt_windowRoll : Z;
  opt_halfOpenThreshold : Z;
  opt_fromHalfOpenToState : Counts -> State;
  opt_canTrip : Counts -> bool
}.

(** An option either updates the configuration or reports why it cannot. A
    callback argument is [None] for Go's [nil]. *)
Definition option_ : Type := optionsConfiguration -> optionsConfiguration + string.

Definition WithWindowFrameThreshold (seconds : Z) : option_ := fun opt =>
  if seconds <=? 0 then inr "frame can't be less than equal zero"%string
  else inl (mkOptions seconds (opt_windowRoll opt) (opt_halfOpenThreshold opt)
                      (opt_fromHalfOpenToState opt) (opt_canTrip opt)).

Definition WithWindowRollThreshold (seconds : Z) : option_ := fun opt =>
  if seconds <=? 0 then inr "window roll can't be less than equal zero"%string
  else inl (mkOptions (opt_windowFrame opt) seconds (opt_halfOpenThreshold opt)
                      (opt_fromHalfOpenToState opt) (opt_canTrip opt)).

Definition WithHalfOpenThreshold (seconds : Z) : option_ := fun opt =>
  if seconds <=? 0 then inr "half open threshold can't be less than equal zero"%string
  else inl (mkOptions (opt_windowFrame opt) (opt_windowRoll opt) seconds
                      (opt_fromHalfOpenToState opt) (opt_canTrip opt)).

Definition WithCanTrip (canTrip : option (Counts -> bool)) : option_ := fun opt =>
  match canTrip with
  | None => inr "can trip callback can't be <nil>"%string
  | Some f => inl (mkOptions (opt_windowFrame opt) (opt_windowRoll opt)
                             (opt_halfOpenThreshold opt) (opt_fromHalfOpenToState opt) f)
  end.

Definition WithFromHalfOpenToState (fromHalfOpenToState : option (Counts -> State))
  : option_ := fun opt =>
  match fromHalfOpenToState with
  | None => inr "half open state change callback can't be <nil>"%string
  | Some f => inl (mkOptions (opt_windowFrame opt) (opt_windowRoll opt)
                             (opt_halfOpenThreshold opt) f (opt_canTrip opt))
  end.

(** ** The breaker *)

Definition _windowRoll : Z := 300.
Definition _windowFrame : Z := 15.
Definition _halfOpenTimeout : Z := 30.

Record CircuitBreaker : Type := mkBreaker {
  state : State;
  onHalfOpenTimeout : bool;
  canTrip : Counts -> bool;
  fromHalfOpenToState : Counts -> State;
  cfg : configuration;
  rollingWindow : list Counts;
  summary : Counts
}.

Inductive newError : Set :=
| ErrNewCircuitBreaker (cause : string).

Definition defaultOptions : optionsConfiguration :=
  mkOptions _windowFrame _windowRoll _halfOpenTimeout
            defaultFromHalfOpenToState defaultCanTrip.

(** The loop of [New] over its options: the first failing one stops it. *)
Fixpoint applyOptions (opts : list option_) (cbOpts : optionsConfiguration)
  : optionsConfiguration + string :=
  match opts with
  | [] => inl cbOpts
  | opt :: rest =>
      match opt cbOpts with
      | inr err => inr err
      | inl cbOpts' => applyOptions rest cbOpts'
      end
  end.

(** The number of frames of the window: Go's truncating division on [int]. *)
Definition frames (cbOpts : optionsConfiguration) : Z :=
  Z.quot (opt_windowRoll cbOpts) (opt_windowFrame cbOpts).

(** [make([]Counts, n, _)]: [n] zero frames. *)
Definition make_window (n : Z) : list Counts := repeat zeroCounts (Z.to_nat n).

Definition New (opts : list option_) : CircuitBreaker + newError :=
  match applyOptions opts defaultOptions with
  | inr err => inr (ErrNewCircuitBreaker err)
  | inl cbOpts =>
      if opt_windowFrame cbOpts >? opt_windowRoll cbOpts
      then inr (ErrNewCircuitBreaker "invalid window threshold")
      else inl (mkBreaker
                  Closed false
                  (opt_canTrip cbOpts) (opt_fromHalfOpenToState cbOpts)
                  (mkConfiguration
                     (I64.mul time_Second (opt_windowRoll cbOpts))
                     (I64.mul time_Second (opt_windowFrame cbOpts))
                     (I64.mul time_Second (opt_halfOpenThreshold cbOpts)))
                  (make_window (frames cbOpts))
                  zeroCounts)
  end.

(** ** The running system

    Besides the breaker, the program state holds the goroutines that [New]
    and [afterExecute] start and whatever the wrapped operations act on. *)

(** The goroutines running [waitHalfOpen], counted by where they stand:
    started and not yet at [onHalfOpenTimeout.Store(true)]; blocked on
    [time.After(halfOpenTimeout)]; past the state change, before the
    deferred [onHalfOpenTimeout.Store(false)]. *)
Record waiters : Set := mkWaiters {
  spawned : nat;
  sleeping : nat;
  finishing : nat
}.

Record Sys (W : Type) : Type := mkSys {
  breaker : CircuitBreaker;
  waitHalfOpenG : waiters;
  renewFrameG : bool;       (* the goroutine of [renewFrame] is still looping *)
  world : W
}.
Arguments mkSys {W}.
Arguments breaker {W}.
Arguments waitHalfOpenG {W}.
Arguments renewFrameG {W}.
Arguments world {W}.

(** What [Execute] returns: [nil] is [None]. *)
Inductive error (E : Type) : Type :=
| ErrOpenCircuit
| CallError (e : E).
Arguments ErrOpenCircuit {E}.
Arguments CallError {E}.

(** What a panic carries: the value of the caller's own [panic], or one of
    the run-time errors of indexing and slicing. *)
Inductive panicValue (V : Type) : Type :=
| CallerPanic (v : V)
| IndexOutOfRange
| SliceBoundsOutOfRange.
Arguments CallerPanic {V}.
Arguments IndexOutOfRange {V}.
Arguments SliceBoundsOutOfRange {V}.

Inductive outcome (V A : Type) : Type :=
| Done (a : A)
| Panicking (p : panicValue V).
Arguments Done {V A}.
Arguments Panicking {V A}.

(** A wrapped operation returns an error or [nil], or panics; it acts on
    the world outside the breaker. *)
Inductive callResult (E V : Type) : Type :=
| Returns (err : option (error E))
| Panics (v : V).
Arguments Returns {E V}.
Arguments Panics {E V}.

Definition circuitCall (W E V : Type) : Type := W -> callResult E V * W.

Definition M (W V A : Type) : Type := Sys W -> outcome V A * Sys W.

Section Monad.
Context {W V : Type}.

Definition ret {A} (a : A) : M W V A := fun s => (Done a, s).

Definition bind {A B} (m : M W V A) (k : A -> M W V B) : M W V B := fun s =>
  match m s with
  | (Done a, s') => k a s'
  | (Panicking p, s') => (Panicking p, s')
  end.

Definition panic {A} (p : panicValue V) : M W V A := fun s => (Panicking p, s).

Definition gets {A} (f : CircuitBreaker -> A) : M W V A :=
  fun s => (Done (f (breaker s)), s).

Definition modify (f : CircuitBreaker -> CircuitBreaker) : M W V unit :=
  fun s => (Done tt, mkSys (f (breaker s)) (waitHalfOpenG s) (renewFrameG s) (world s)).

(** [defer d()] in front of [body]: [d] runs when [body] returns and when
    it panics; a panic of [d] replaces the one under way. *)
Definition with_defer {A} (d : M W V unit) (body : M W V A) : M W V A := fun s =>
  let (r, s1) := body s in
  match d s1 with
  | (Done _, s2) => (r, s2)
  | (Panicking p, s2) => (Panicking p, s2)
  end.

(** [defer func() { if r := recover(); r != nil { h(r) } }()] in front of
    [body]: a panic of [body] is handed to [h]; if [h] returns, the
    function returns its zero result. *)
Definition with_recover {A} (h : panicValue V -> M W V unit) (zero : A)
           (body : M W V A) : M W V A := fun s =>
  match body s with
  | (Done a, s1) => (Done a, s1)
  | (Panicking r, s1) =>
      match h r s1 with
      | (Done _, s2) => (Done zero, s2)
      | (Panicking p, s2) => (Panicking p, s2)
      end
  end.
End Monad.

Declare Scope breaker_scope.
Delimit Scope breaker_scope with breaker.
Notation "x <- c1 ;; c2" := (bind c1 (fun x => c2))
  (at level 61, c1 at next level, right associativity) : breaker_scope.
Notation "c1 ;; c2" := (bind c1 (fun _ => c2))
  (at level 61, right associativity) : breaker_scope.
Local Open Scope breaker_scope.

(** ** Field updates *)

Definition set_state (st : State) (c : CircuitBreaker) : CircuitBreaker :=
  mkBreaker st (onHalfOpenTimeout c) (canTrip c) (fromHalfOpenToState c)
            (cfg c) (rollingWindow c) (summary c).

Definition set_onHalfOpenTimeout (flag : bool) (c : CircuitBreaker) : CircuitBreaker :=
  mkBreaker (state c) flag (canTrip c) (fromHalfOpenToState c)
            (cfg c) (rollingWindow c) (summary c).

Definition set_window (w : list Counts) (c : CircuitBreaker) : CircuitBreaker :=
  mkBreaker (state c) (onHalfOpenTimeout c) (canTrip c) (fromHalfOpenToState c)
            (cfg c) w (summary c).

Definition set_summary (sm : Counts) (c : CircuitBreaker) : CircuitBreaker :=
  mkBreaker (state c) (onHalfOpenTimeout c) (canTrip c) (fromHalfOpenToState c)
            (cfg c) (rollingWindow c) sm.

Definition set_Total (f : Z -> Z) (c : Counts) : Counts :=
  mkCounts (f (Total c)) (Fail c) (Success c).
Definition set_Fail (f : Z -> Z) (c : Counts) : Counts :=
  mkCounts (Total c) (f (Fail c)) (Success c).
Definition set_Success (f : Z -> Z) (c : Counts) : Counts :=
  mkCounts (Total c) (Fail c) (f (Success c)).

(** ** Methods of the breaker *)

Section Methods.
Context {W E V : Type}.

#[local] Abbreviation M := (M W V).

(** [c.rollingWindow.window[len(c.rollingWindow.window)-1]]: with an empty
    window the index is [-1] and the access panics. *)
Definition lastFrame : M Counts :=
  w <- gets rollingWindow ;;
  match w with
  | [] => panic IndexOutOfRange
  | _ :: _ => ret (last w zeroCounts)
  end.

(** An assignment to a field of that last frame. *)
Definition assignLastFrame (f : Counts -> Counts) : M unit :=
  w <- gets rollingWindow ;;
  match w with
  | [] => panic IndexOutOfRange
  | _ :: _ => modify (set_window (removelast w ++ [f (last w zeroCounts)]))
  end.

Definition assignSummary (f : Counts -> Counts) : M unit :=
  modify (fun c => set_summary (f (summary c)) c).

Definition stateCopy : M State := gets state.
Definition summaryCopy : M Counts := gets summary.
Definition currentFrameCopy : M Counts := lastFrame.
Definition windowCopy : M (list Counts) := gets rollingWindow.

Definition canExecute : M (option (error E)) :=
  st <- gets state ;;
  if State_eqb st Open then ret (Some ErrOpenCircuit) else ret None.

(** Removes the first frame from the rolling window: the frame is read
    for the result, then the deferred function re-slices from index 1. *)
Definition unshiftFrame : M Counts :=
  with_defer
    (w <- gets rollingWindow ;;
     match w with
     | [] => panic SliceBoundsOutOfRange
     | _ :: rest => modify (set_window rest)
     end)
    (w <- gets rollingWindow ;;
     match w with
     | [] => panic IndexOutOfRange
     | frame :: _ => ret frame
     end).

Definition addFrame : M unit :=
  w <- gets rollingWindow ;;
  modify (set_window (w ++ [zeroCounts])).

(** Removes the last frame from the rolling window. *)
Definition popFrame : M Counts :=
  with_defer
    (w <- gets rollingWindow ;;
     match w with
     | [] => panic SliceBoundsOutOfRange
     | _ :: _ => modify (set_window (removelast w))
     end)
    lastFrame.

Definition decrSummary (decr : Counts) : M unit :=
  assignSummary (set_Fail (fun x => U64.sub x (Fail decr))) ;;
  assignSummary (set_Success (fun x => U64.sub x (Success decr))) ;;
  assignSummary (set_Total (fun x => U64.sub x (Total decr))).

Definition moveWindow : M unit :=
  frame <- unshiftFrame ;;
  decrSummary frame ;;
  addFrame.

Definition popWindow : M unit :=
  frame <- popFrame ;;
  decrSummary frame.

Definition aggregateHalfOpenFrame : M unit :=
  halfOpenFrame <- popFrame ;;
  assignLastFrame (set_Total (fun x => U64.add x (Total halfOpenFrame))) ;;
  assignLastFrame (set_Success (fun x => U64.add x (Success halfOpenFrame))) ;;
  assignLastFrame (set_Fail (fun x => U64.add x (Fail halfOpenFrame))).

Definition incrSuccess : M unit :=
  assignLastFrame (set_Total (fun x => U64.add x 1)) ;;
  assignLastFrame (set_Success (fun x => U64.add x 1)) ;;
  assignSummary (set_Total (fun x => U64.add x 1)) ;;
  assignSummary (set_Success (fun x => U64.add x 1)).

Definition incrFail : M unit :=
  assignLastFrame (set_Total (fun x => U64.add x 1)) ;;
  assignLastFrame (set_Fail (fun x => U64.add x 1)) ;;
  assignSummary (set_Fail (fun x => U64.add x 1)) ;;
  assignSummary (set_Total (fun x => U64.add x 1)).

(** [go c.waitHalfOpen()] *)
Definition go_waitHalfOpen : M unit := fun s =>
  let g := waitHalfOpenG s in
  (Done tt, mkSys (breaker s) (mkWaiters (S (spawned g)) (sleeping g) (finishing g))
                  (renewFrameG s) (world s)).

Definition afterExecute : M unit :=
  st <- gets state ;;
  match st with
  | Closed =>
      sm <- summaryCopy ;;
      trip <- gets (fun c => canTrip c sm) ;;
      if trip
      then modify (set_state Open) ;; go_waitHalfOpen
      else ret tt
  | HalfOpen =>
      frame <- currentFrameCopy ;;
      next <- gets (fun c => fromHalfOpenToState c frame) ;;
      match next with
      | Open =>
          armed <- gets onHalfOpenTimeout ;;
          if armed then ret tt
          else go_waitHalfOpen ;; modify (set_state Open) ;; popWindow
      | Closed =>
          modify (set_state Closed) ;; aggregateHalfOpenFrame
      | HalfOpen => ret tt
      end
  | Open => ret tt
  end.

(** The call of the wrapped operation. *)
Definition call (fn : circuitCall W E V) : M (option (error E)) := fun s =>
  let (r, w') := fn (world s) in
  let s' := mkSys (breaker s) (waitHalfOpenG s) (renewFrameG s) w' in
  match r with
  | Returns err => (Done err, s')
  | Panics v => (Panicking (CallerPanic v), s')
  end.

Definition Execute (fn : circuitCall W E V) : M (option (error E)) :=
  with_defer afterExecute
    (rejected <- canExecute ;;
     match rejected with
     | Some err => ret (Some err)
     | None =>
         with_recover (fun r => incrFail ;; panic r) None
           (err <- call fn ;;
            match err with
            | Some e => incrFail ;; ret (Some e)
            | None => incrSuccess ;; ret None
            end)
     end).

(** *** The goroutines *)

(** [waitHalfOpen], in the three stretches in which it runs. *)
Definition waitHalfOpen_store (s : Sys W) : Sys W :=
  let g := waitHalfOpenG s in
  match spawned g with
  | O => s
  | S n =>
      mkSys (set_onHalfOpenTimeout true (breaker s))
            (mkWaiters n (S (sleeping g)) (finishing g))
            (renewFrameG s) (world s)
  end.

Definition waitHalfOpen_fire (s : Sys W) : Sys W :=
  let g := waitHalfOpenG s in
  match sleeping g with
  | O => s
  | S n =>
      snd ((modify (set_state HalfOpen) ;; addFrame)
             (mkSys (breaker s) (mkWaiters (spawned g) n (S (finishing g)))
                    (renewFrameG s) (world s)))
  end.

Definition waitHalfOpen_done (s : Sys W) : Sys W :=
  let g := waitHalfOpenG s in
  match finishing g with
  | O => s
  | S n =>
      mkSys (set_onHalfOpenTimeout false (breaker s))
            (mkWaiters (spawned g) (sleeping g) n)
            (renewFrameG s) (world s)
  end.

(** One round of the loop of [renewFrame] when [time.After(windowFrame)]
    fires: outside [Closed] the goroutine returns, for good. *)
Definition renewFrame_tick (s : Sys W) : Sys W :=
  if renewFrameG s then
    if State_eqb (state (breaker s)) Closed
    then snd (moveWindow s)
    else mkSys (breaker s) (waitHalfOpenG s) false (world s)
  else s.

(** The system right after [New]: [renewFrame] is running. *)
Definition boot (cb : CircuitBreaker) (w : W) : Sys W :=
  mkSys cb (mkWaiters 0 0 0) true w.

(** What can happen next. A call of [Execute] is one action; calls that
    overlap are covered by the actions of their parts. *)
Inductive action : Type :=
| ActExecute (fn : circuitCall W E V)
| ActCanExecute
| ActCall (fn : circuitCall W E V)
| ActIncrSuccess
| ActIncrFail
| ActAfterExecute
| ActRenewFrame
| ActWaitStore
| ActWaitFire
| ActWaitDone.

Definition step (a : action) (s : Sys W) : Sys W :=
  match a with
  | ActExecute fn => snd (Execute fn s)
  | ActCanExecute => snd (canExecute s)
  | ActCall fn => snd (call fn s)
  | ActIncrSuccess => snd (incrSuccess s)
  | ActIncrFail => snd (incrFail s)
  | ActAfterExecute => snd (afterExecute s)
  | ActRenewFrame => renewFrame_tick s
  | ActWaitStore => waitHalfOpen_store s
  | ActWaitFire => waitHalfOpen_fire s
  | ActWaitDone => waitHalfOpen_done s
  end.

Fixpoint run (trace : list action) (s : Sys W) : Sys W :=
  match trace with
  | [] => s
  | a :: rest => run rest (step a s)
  end.

(** The operation of the tests: returns the given error, touches nothing. *)
Definition fixtureCircuitCall (err : option (error E)) : circuitCall W E V :=
  fun w => (Returns err, w).
End Methods.

(** ** What the statements below speak of *)

(** [Total == Fail + Success], in the arithmetic of [uint64]. *)
Definition consistent (c : Counts) : Prop :=
  Total c = U64.add (Fail c) (Success c).

(** The sum of one field over the frames, in the arithmetic of [uint64]. *)
Definition sumBy (f : Counts -> Z) (w : list Counts) : Z :=
  fold_right (fun c acc => U64.add (f c) acc) 0 w.

Definition summary_is_sum (c : CircuitBreaker) : Prop :=
  Total (summary c) = sumBy Total (rollingWindow c)
  /\ Fail (summary c) = sumBy Fail (rollingWindow c)
  /\ Success (summary c) = sumBy Success (rollingWindow c).

(** The sum of two frames and the difference of a summary and a frame,
    field by field. *)
Definition addCounts (a b : Counts) : Counts :=
  mkCounts (U64.add (Total a) (Total b)) (U64.add (Fail a) (Fail b))
           (U64.add (Success a) (Success b)).

Definition subCounts (a b : Counts) : Counts :=
  mkCounts (U64.sub (Total a) (Total b)) (U64.sub (Fail a) (Fail b))
           (U64.sub (Success a) (Success b)).

(** One more success, one more failure. *)
Definition bumpSuccess (c : Counts) : Counts :=
  mkCounts (U64.add (Total c) 1) (Fail c) (U64.add (Success c) 1).

Definition bumpFail (c : Counts) : Counts :=
  mkCounts (U64.add (Total c) 1) (U64.add (Fail c) 1) (Success c).

(** The options a caller can build: the five constructors. *)
Definition is_With (o : option_) : Prop :=
  (exists n, o = WithWindowFrameThreshold n)
  \/ (exists n, o = WithWindowRollThreshold n)
  \/ (exists n, o = WithHalfOpenThreshold n)
  \/ (exists f, o = WithCanTrip f)
  \/ (exists f, o = WithFromHalfOpenToState f).

Definition positive_thresholds (o : optionsConfiguration) : Prop :=
  0 < opt_windowFrame o /\ 0 < opt_windowRoll o /\ 0 < opt_halfOpenThreshold o.

Definition isHalfOpen (st : State) : nat := if State_eqb st HalfOpen then 1 else 0.
Definition isOpen (st : State) : nat := if State_eqb st Open then 1 else 0.

(** The recovery goroutines whose timer has not fired yet. *)
Definition armed (g : waiters) : nat := (spawned g + sleeping g)%nat.

Section Invariant.
Context {W : Type}.

Definition onBreaker (f : CircuitBreaker -> CircuitBreaker) (s : Sys W) : Sys W :=
  mkSys (f (breaker s)) (waitHalfOpenG s) (renewFrameG s) (world s).

Definition onWaiters (f : waiters -> waiters) (s : Sys W) : Sys W :=
  mkSys (breaker s) (f (waitHalfOpenG s)) (renewFrameG s) (world s).

Definition spawn (g : waiters) : waiters :=
  mkWaiters (S (spawned g)) (sleeping g) (finishing g).

(** What holds of a system started by [New] with [n] frames, whatever
    happens next. *)
Record Inv (n : nat) (s : Sys W) : Prop := mkInv {
  inv_frames : (1 <= n)%nat;
  inv_length :
    length (rollingWindow (breaker s)) = (n + isHalfOpen (state (breaker s)))%nat;
  inv_sum : summary_is_sum (breaker s);
  inv_frame : Forall consistent (rollingWindow (breaker s));
  inv_summary : consistent (summary (breaker s));
  inv_armed : armed (waitHalfOpenG s) = isOpen (state (breaker s))
}.
End Invariant.

(** What an admitted call hands back to its caller, and what it records. *)
Definition handedBack {E V : Type} (r : callResult E V) : outcome V (option (error E)) :=
  match r with
  | Returns err => Done err
  | Panics v => Panicking (CallerPanic v)
  end.

Definition bumpFor {E V : Type} (r : callResult E V) : Counts -> Counts :=
  match r with
  | Returns None => bumpSuccess
  | Returns (Some _) => bumpFail
  | Panics _ => bumpFail
  end.

(** What a returned error records, and what a row of calls records. *)
Definition bumpOf {E : Type} (err : option (error E)) : Counts -> Counts :=
  match err with
  | None => bumpSuccess
  | Some _ => bumpFail
  end.

Definition tally {E : Type} (calls : list (option (error E))) (c : Counts) : Counts :=
  fold_left (fun acc err => bumpOf err acc) calls c.

(** The calls of the tests' helper: one [Execute] after the other, each
    on an operation that returns the next error of [calls]. *)
Definition syncFeedCircuitBreakerHelper {W E V : Type}
           (calls : list (option (error E))) : list (@action W E V) :=
  map (fun err => ActExecute (fixtureCircuitCall err)) calls.

(** Seven failures, then four successes. *)
Definition sevenThenFour {E : Type} (e : E) : list (option (error E)) :=
  repeat (Some (CallError e)) 7 ++ repeat None 4.

(** The number of frames [New] computes from its options. *)
Definition framesOf (opts : list option_) : Z :=
  match applyOptions opts defaultOptions with
  | inl cbOpts => frames cbOpts
  | inr _ => 0
  end.

(** ** Scenarios

    The calls and settings of the package's tests. The world of these
    operations is the number of times one of them ran. *)

Definition errCall : error string := CallError "execute error"%string.

(** An operation that returns [err] and counts its runs. *)
Definition counted (err : option (error string)) : circuitCall nat string string :=
  fun runs => (Returns err, S runs).


Definition closedCalls : list (@action nat string string) :=
  syncFeedCircuitBreakerHelper (sevenThenFour "execute error"%string).

(** The recovery goroutine from start to end. *)
Definition recovery : list (@action nat string string) :=
  [ActWaitStore; ActWaitFire; ActWaitDone].

Definition smallOptions : list option_ :=
  [WithWindowFrameThreshold 10; WithWindowRollThreshold 30; WithHalfOpenThreshold 2].

Definition oddOptions : list option_ :=
  [WithWindowFrameThreshold 222; WithWindowRollThreshold 4759; WithHalfOpenThreshold 21].

(** The breakers [New] returns for these options. *)
Definition smallBreaker : CircuitBreaker :=
  mkBreaker Closed false defaultCanTrip defaultFromHalfOpenToState
            (mkConfiguration 30000000000 10000000000 2000000000)
            (repeat zeroCounts 3) zeroCounts.

Definition oddBreaker : CircuitBreaker :=
  mkBreaker Closed false defaultCanTrip defaultFromHalfOpenToState
            (mkConfiguration 4759000000000 222000000000 21000000000)
            (repeat zeroCounts 21) zeroCounts.

Definition defaultBreaker : CircuitBreaker :=
  mkBreaker Closed false defaultCanTrip defaultFromHalfOpenToState
            (mkConfiguration 300000000000 15000000000 30000000000)
            (repeat zeroCounts 20) zeroCounts.

(** The small breaker after it tripped and its recovery timer fired. *)
Definition halfOpenSys : Sys nat :=
  run (closedCalls ++ recovery) (boot smallBreaker 0%nat).

(** The small breaker after the eleven calls that trip it. *)
Definition openSys : Sys nat := run closedCalls (boot smallBreaker 0%nat).

(** The half-open breaker while a first caller, admitted, is inside its
    operation. *)
Definition busySys : Sys nat :=
  run [ActCanExecute; ActCall (counted None)] halfOpenSys.

(** The half-open breaker after a probe recorded a failure, and after
    probes recorded 101 successes, before the transition rule ran. *)
Definition probeFailedSys : Sys nat :=
  run [@ActIncrFail nat string string] halfOpenSys.

Definition probePassedSys : Sys nat :=
  run (repeat (@ActIncrSuccess nat string string) 101) halfOpenSys.

(** The half-open breaker after a hundred successful calls. *)
Definition hundredProbesSys : Sys nat :=
  run (repeat (ActExecute (counted None)) 100) halfOpenSys.

(** ** Further notions *)

(** [m] takes every system to one that [R] relates to it, whether it
    returns or panics. *)
Definition keeps {W V A : Type} (R : Sys W -> Sys W -> Prop) (m : M W V A) : Prop :=
  forall s, R s (snd (m s)).

(** What [New] fixed: the durations and the two policies. *)
Definition same_setup {W : Type} (s s' : Sys W) : Prop :=
  cfg (breaker s') = cfg (breaker s)
  /\ canTrip (breaker s') = canTrip (breaker s)
  /\ fromHalfOpenToState (breaker s') = fromHalfOpenToState (breaker s).

Definition same_state {W : Type} (s s' : Sys W) : Prop :=
  state (breaker s') = state (breaker s).

Definition same_renewer {W : Type} (s s' : Sys W) : Prop :=
  renewFrameG s' = renewFrameG s.

(** An option that [New] cannot accept: a threshold that is not positive,
    a callback that is [nil]. *)
Definition invalid_With (o : option_) : Prop :=
  (exists n, n <= 0 /\ o = WithWindowFrameThreshold n)
  \/ (exists n, n <= 0 /\ o = WithWindowRollThreshold n)
  \/ (exists n, n <= 0 /\ o = WithHalfOpenThreshold n)
  \/ o = WithCanTrip None
  \/ o = WithFromHalfOpenToState None.

(** The largest number of seconds that [time.Second * time.Duration(n)]
    holds without overflow. *)
Definition maxSeconds : Z := 9223372036.

(** The failure ratio of the default trip policy, in exact arithmetic. *)
Definition exactCanTrip (summary : Counts) : bool :=
  (10 <? Total summary) && (60 * Total summary <=? 100 * Fail summary).

(** The two agree on every [Total] up to [n] and every [Fail] up to
    [Total]; [Success] plays no part in either. *)
Definition agree_at (total fail : nat) : bool :=
  let c := mkCounts (Z.of_nat total) (Z.of_nat fail) 0 in
  Bool.eqb (defaultCanTrip c) (exactCanTrip c).

Definition agree_upto (n : nat) : bool :=
  forallb (fun total => forallb (agree_at total) (seq 0 (S total))) (seq 0 (S n)).

(** ** The trip policy of [stateControler]

    Its ratio is an integer division of [uint64]: a zero [Total] panics
    with a division by zero, which is [None] here. *)
Module StateControler.
Definition defaultCanTrip (summary : Counts) : option bool :=
  if Total summary =? 0 then None
  else Some (60 <=? Fail summary / Total summary).
End StateControler.

(** A breaker whose trip policy never trips, as the tests build it with
    [WithCanTrip], and one whose window was emptied by hand. *)
Definition calmOptions : list option_ :=
  [WithCanTrip (Some (fun _ => false))].

Definition calmSys : Sys nat :=
  boot (mkBreaker Closed false (fun _ => false) defaultFromHalfOpenToState
                  (mkConfiguration 300000000000 15000000000 30000000000)
                  (repeat zeroCounts 20) zeroCounts) 0%nat.

Definition hollowSys : Sys nat :=
  boot (mkBreaker Closed false defaultCanTrip defaultFromHalfOpenToState
                  (mkConfiguration 300000000000 15000000000 30000000000)
                  [] zeroCounts) 0%nat.

(** Options with a threshold below zero among them. *)
Definition badOptions : list option_ :=
  [WithWindowFrameThreshold 10; WithHalfOpenThreshold (-1000)].

(** The small breaker after two calls. *)
Definition usedSys : Sys nat :=
  run [ActExecute (counted None); ActExecute (counted (Some errCall))]
      (boot smallBreaker 0%nat).

(** The recovery goroutine up to its timer, and [n] rounds of [renewFrame]. *)
Definition toTimer : list (@action nat string string) :=
  [ActWaitStore; ActWaitFire].

Definition rounds (n : nat) : list (@action nat string string) :=
  repeat ActRenewFrame n.

(** ** Tactics *)

(** Equations of [uint64] arithmetic: both sides under one [mod]. *)
Ltac u64_norm :=
  unfold U64.add, U64.sub, U64.mul, U64.wrap;
  repeat first
    [ rewrite Zplus_mod_idemp_l | rewrite Zplus_mod_idemp_r
    | rewrite Zminus_mod_idemp_l | rewrite Zminus_mod_idemp_r
    | rewrite Zmod_mod ].

Ltac u64 := u64_norm; try (f_equal; lia).

(** Every option of a list is one of the five constructors. *)
Ltac prove_With :=
  repeat (apply Forall_cons;
          [ first [ left; eexists; reflexivity
                  | right; left; eexists; reflexivity
                  | right; right; left; eexists; reflexivity
                  | right; right; right; left; eexists; reflexivity
                  | right; right; right; right; eexists; reflexivity ] | ]);
  apply Forall_nil.

(** * Arithmetic of [uint64] *)

Lemma wrap_in_range (z : Z) : U64.in_range (U64.wrap z).
Proof.
  unfold U64.in_range, U64.wrap, U64.modulus.
  apply Z.mod_pos_bound. reflexivity.
Qed.

Lemma wrap_small (z : Z) : U64.in_range z -> U64.wrap z = z.
Proof.
  unfold U64.in_range, U64.wrap. intros H. now apply Z.mod_small.
Qed.

Lemma sumBy_wrap (f : Counts -> Z) (w : list Counts) :
  U64.wrap (sumBy f w) = sumBy f w.
Proof.
  destruct w as [|c w]; simpl.
  - reflexivity.
  - u64.
Qed.

Lemma sumBy_snoc (f : Counts -> Z) (w : list Counts) (x : Counts) :
  sumBy f (w ++ [x]) = U64.add (sumBy f w) (f x).
Proof.
  induction w as [|c w IH]; simpl.
  - u64.
  - rewrite IH. u64.
Qed.

Lemma sumBy_repeat_zero (f : Counts -> Z) (n : nat) :
  f zeroCounts = 0 -> sumBy f (repeat zeroCounts n) = 0.
Proof.
  intros Hf. induction n as [|n IH]; simpl.
  - reflexivity.
  - rewrite IH, Hf. reflexivity.
Qed.

Lemma sub_add_cancel (f : Counts -> Z) (w : list Counts) (x : Z) :
  U64.sub (U64.add (sumBy f w) x) x = sumBy f w.
Proof.
  rewrite <- (sumBy_wrap f w) at 2. u64.
Qed.

Lemma sub_add_cancel_l (f : Counts -> Z) (w : list Counts) (x : Z) :
  U64.sub (U64.add x (sumBy f w)) x = sumBy f w.
Proof.
  rewrite <- (sumBy_wrap f w) at 2. u64.
Qed.

Lemma consistent_zero : consistent zeroCounts.
Proof. reflexivity. Qed.

Lemma consistent_add (a b : Counts) :
  consistent a -> consistent b -> consistent (addCounts a b).
Proof.
  unfold consistent, addCounts; simpl. intros -> ->. u64.
Qed.

Lemma consistent_sub (a b : Counts) :
  consistent a -> consistent b -> consistent (subCounts a b).
Proof.
  unfold consistent, subCounts; simpl. intros -> ->. u64.
Qed.

Lemma consistent_bumpSuccess (c : Counts) :
  consistent c -> consistent (bumpSuccess c).
Proof.
  unfold consistent, bumpSuccess; simpl. intros ->. u64.
Qed.

Lemma consistent_bumpFail (c : Counts) :
  consistent c -> consistent (bumpFail c).
Proof.
  unfold consistent, bumpFail; simpl. intros ->. u64.
Qed.

(** * What each method does *)

Section MethodFacts.
Context {W E V : Type}.

#[local] Abbreviation Sys := (Sys W).
#[local] Abbreviation M := (M W V).

Lemma snoc_not_nil {A} (init : list A) (x : A) : init ++ [x] <> [].
Proof. destruct init; discriminate. Qed.

Lemma lastFrame_snoc (s : Sys) (init : list Counts) (x : Counts) :
  rollingWindow (breaker s) = init ++ [x] ->
  @lastFrame W V s = (Done x, s).
Proof.
  intros Hw. unfold lastFrame, bind, gets. rewrite Hw.
  destruct (init ++ [x]) eqn:Heq.
  - now apply snoc_not_nil in Heq.
  - rewrite <- Heq, last_last. reflexivity.
Qed.

Lemma lastFrame_nil (s : Sys) :
  rollingWindow (breaker s) = [] ->
  @lastFrame W V s = (Panicking IndexOutOfRange, s).
Proof.
  intros Hw. unfold lastFrame, bind, gets. rewrite Hw. reflexivity.
Qed.

Lemma assignLastFrame_snoc (f : Counts -> Counts) (s : Sys)
      (init : list Counts) (x : Counts) :
  rollingWindow (breaker s) = init ++ [x] ->
  @assignLastFrame W V f s = (Done tt, onBreaker (set_window (init ++ [f x])) s).
Proof.
  intros Hw. unfold assignLastFrame, bind, gets. rewrite Hw.
  destruct (init ++ [x]) eqn:Heq.
  - now apply snoc_not_nil in Heq.
  - rewrite <- Heq, last_last, removelast_last. reflexivity.
Qed.

Lemma assignLastFrame_nil (f : Counts -> Counts) (s : Sys) :
  rollingWindow (breaker s) = [] ->
  @assignLastFrame W V f s = (Panicking IndexOutOfRange, s).
Proof.
  intros Hw. unfold assignLastFrame, bind, gets. rewrite Hw. reflexivity.
Qed.

Lemma incrSuccess_snoc (s : Sys) (init : list Counts) (x : Counts) :
  rollingWindow (breaker s) = init ++ [x] ->
  @incrSuccess W V s =
  (Done tt,
   onBreaker (fun c => set_summary (bumpSuccess (summary c))
                         (set_window (init ++ [bumpSuccess x]) c)) s).
Proof.
  intros Hw. unfold incrSuccess, bind.
  rewrite (assignLastFrame_snoc _ s init x Hw).
  erewrite assignLastFrame_snoc by reflexivity.
  reflexivity.
Qed.

Lemma incrFail_snoc (s : Sys) (init : list Counts) (x : Counts) :
  rollingWindow (breaker s) = init ++ [x] ->
  @incrFail W V s =
  (Done tt,
   onBreaker (fun c => set_summary (bumpFail (summary c))
                         (set_window (init ++ [bumpFail x]) c)) s).
Proof.
  intros Hw. unfold incrFail, bind.
  rewrite (assignLastFrame_snoc _ s init x Hw).
  erewrite assignLastFrame_snoc by reflexivity.
  reflexivity.
Qed.

Lemma incrSuccess_nil (s : Sys) :
  rollingWindow (breaker s) = [] ->
  @incrSuccess W V s = (Panicking IndexOutOfRange, s).
Proof.
  intros Hw. unfold incrSuccess, bind.
  now rewrite (assignLastFrame_nil _ s Hw).
Qed.

Lemma incrFail_nil (s : Sys) :
  rollingWindow (breaker s) = [] ->
  @incrFail W V s = (Panicking IndexOutOfRange, s).
Proof.
  intros Hw. unfold incrFail, bind.
  now rewrite (assignLastFrame_nil _ s Hw).
Qed.

Lemma decrSummary_eq (decr : Counts) (s : Sys) :
  @decrSummary W V decr s =
  (Done tt, onBreaker (fun c => set_summary (subCounts (summary c) decr) c) s).
Proof. reflexivity. Qed.

Lemma unshiftFrame_cons (s : Sys) (frame : Counts) (rest : list Counts) :
  rollingWindow (breaker s) = frame :: rest ->
  @unshiftFrame W V s = (Done frame, onBreaker (set_window rest) s).
Proof.
  intros Hw. unfold unshiftFrame, with_defer, bind, gets. rewrite Hw.
  unfold ret, panic. simpl. rewrite Hw. reflexivity.
Qed.

Lemma unshiftFrame_nil (s : Sys) :
  rollingWindow (breaker s) = [] ->
  @unshiftFrame W V s = (Panicking SliceBoundsOutOfRange, s).
Proof.
  intros Hw. unfold unshiftFrame, with_defer, bind, gets. rewrite Hw.
  unfold ret, panic. simpl. rewrite Hw. reflexivity.
Qed.

Lemma moveWindow_cons (s : Sys) (frame : Counts) (rest : list Counts) :
  rollingWindow (breaker s) = frame :: rest ->
  @moveWindow W V s =
  (Done tt,
   onBreaker (fun c => set_window (rest ++ [zeroCounts])
                         (set_summary (subCounts (summary c) frame) c)) s).
Proof.
  intros Hw. unfold moveWindow, bind.
  rewrite (unshiftFrame_cons s frame rest Hw). reflexivity.
Qed.

Lemma moveWindow_nil (s : Sys) :
  rollingWindow (breaker s) = [] ->
  @moveWindow W V s = (Panicking SliceBoundsOutOfRange, s).
Proof.
  intros Hw. unfold moveWindow, bind.
  now rewrite (unshiftFrame_nil s Hw).
Qed.

Lemma popFrame_snoc (s : Sys) (init : list Counts) (x : Counts) :
  rollingWindow (breaker s) = init ++ [x] ->
  @popFrame W V s = (Done x, onBreaker (set_window init) s).
Proof.
  intros Hw. unfold popFrame, with_defer.
  rewrite (lastFrame_snoc s init x Hw).
  unfold bind, gets. rewrite Hw.
  destruct (init ++ [x]) eqn:Heq.
  - now apply snoc_not_nil in Heq.
  - rewrite <- Heq, removelast_last. reflexivity.
Qed.

Lemma popWindow_snoc (s : Sys) (init : list Counts) (x : Counts) :
  rollingWindow (breaker s) = init ++ [x] ->
  @popWindow W V s =
  (Done tt,
   onBreaker (fun c => set_summary (subCounts (summary c) x)
                         (set_window init c)) s).
Proof.
  intros Hw. unfold popWindow, bind.
  rewrite (popFrame_snoc s init x Hw). reflexivity.
Qed.

Lemma aggregateHalfOpenFrame_snoc (s : Sys) (init : list Counts) (prev x : Counts) :
  rollingWindow (breaker s) = (init ++ [prev]) ++ [x] ->
  @aggregateHalfOpenFrame W V s =
  (Done tt, onBreaker (set_window (init ++ [addCounts prev x])) s).
Proof.
  intros Hw. unfold aggregateHalfOpenFrame, bind.
  rewrite (popFrame_snoc s _ x Hw).
  erewrite assignLastFrame_snoc by reflexivity.
  erewrite assignLastFrame_snoc by reflexivity.
  erewrite assignLastFrame_snoc by reflexivity.
  reflexivity.
Qed.
End MethodFacts.

Section AfterExecuteFacts.
Context {W V : Type}.

#[local] Abbreviation Sys := (Sys W).

Lemma afterExecute_Open (s : Sys) :
  state (breaker s) = Open -> @afterExecute W V s = (Done tt, s).
Proof.
  intros Hst. unfold afterExecute, bind, gets. rewrite Hst. reflexivity.
Qed.

Lemma afterExecute_Closed (s : Sys) :
  state (breaker s) = Closed ->
  @afterExecute W V s =
  (Done tt,
   if canTrip (breaker s) (summary (breaker s))
   then onWaiters spawn (onBreaker (set_state Open) s)
   else s).
Proof.
  intros Hst. unfold afterExecute, summaryCopy, bind, gets. rewrite Hst.
  destruct (canTrip (breaker s) (summary (breaker s))); reflexivity.
Qed.

Lemma afterExecute_HalfOpen_stay (s : Sys) (init : list Counts) (x : Counts) :
  state (breaker s) = HalfOpen ->
  rollingWindow (breaker s) = init ++ [x] ->
  fromHalfOpenToState (breaker s) x = HalfOpen ->
  @afterExecute W V s = (Done tt, s).
Proof.
  intros Hst Hw Hp. unfold afterExecute, currentFrameCopy, bind.
  unfold gets at 1. rewrite Hst.
  rewrite (lastFrame_snoc s init x Hw). unfold gets. rewrite Hp. reflexivity.
Qed.

Lemma afterExecute_HalfOpen_guarded (s : Sys) (init : list Counts) (x : Counts) :
  state (breaker s) = HalfOpen ->
  rollingWindow (breaker s) = init ++ [x] ->
  fromHalfOpenToState (breaker s) x = Open ->
  onHalfOpenTimeout (breaker s) = true ->
  @afterExecute W V s = (Done tt, s).
Proof.
  intros Hst Hw Hp Hf. unfold afterExecute, currentFrameCopy, bind.
  unfold gets at 1. rewrite Hst.
  rewrite (lastFrame_snoc s init x Hw). unfold gets. rewrite Hp, Hf. reflexivity.
Qed.

Lemma afterExecute_HalfOpen_Open (s : Sys) (init : list Counts) (x : Counts) :
  state (breaker s) = HalfOpen ->
  rollingWindow (breaker s) = init ++ [x] ->
  fromHalfOpenToState (breaker s) x = Open ->
  onHalfOpenTimeout (breaker s) = false ->
  @afterExecute W V s =
  (Done tt,
   onBreaker (fun c => set_summary (subCounts (summary c) x)
                         (set_window init (set_state Open c)))
             (onWaiters spawn s)).
Proof.
  intros Hst Hw Hp Hf. unfold afterExecute, currentFrameCopy, bind.
  unfold gets at 1. rewrite Hst.
  rewrite (lastFrame_snoc s init x Hw). unfold gets. rewrite Hp, Hf.
  unfold go_waitHalfOpen, modify.
  erewrite popWindow_snoc by (simpl; exact Hw).
  reflexivity.
Qed.

Lemma afterExecute_HalfOpen_Closed (s : Sys) (init : list Counts) (prev x : Counts) :
  state (breaker s) = HalfOpen ->
  rollingWindow (breaker s) = (init ++ [prev]) ++ [x] ->
  fromHalfOpenToState (breaker s) x = Closed ->
  @afterExecute W V s =
  (Done tt,
   onBreaker (fun c => set_window (init ++ [addCounts prev x]) (set_state Closed c)) s).
Proof.
  intros Hst Hw Hp. unfold afterExecute, currentFrameCopy, bind.
  unfold gets at 1. rewrite Hst.
  rewrite (lastFrame_snoc s _ x Hw). unfold gets. rewrite Hp.
  unfold modify.
  erewrite aggregateHalfOpenFrame_snoc by (simpl; exact Hw).
  reflexivity.
Qed.
End AfterExecuteFacts.

(** * The invariant *)

Section InvariantFacts.
Context {W E V : Type}.

#[local] Abbreviation Sys := (Sys W).

Lemma snoc_of_length {A} (l : list A) :
  (1 <= length l)%nat -> exists init x, l = init ++ [x].
Proof.
  intros Hl. destruct (exists_last (l := l)) as [init [x Hx]].
  - intros ->. simpl in Hl. lia.
  - now exists init, x.
Qed.

Lemma snoc2_of_length {A} (l : list A) :
  (2 <= length l)%nat -> exists init prev x, l = (init ++ [prev]) ++ [x].
Proof.
  intros Hl. destruct (snoc_of_length l) as [l' [x ->]]; [lia|].
  rewrite length_app in Hl. simpl in Hl.
  destruct (snoc_of_length l') as [init [prev ->]]; [lia|].
  now exists init, prev, x.
Qed.

Lemma Inv_window_snoc (n : nat) (s : Sys) :
  Inv n s -> exists init x, rollingWindow (breaker s) = init ++ [x].
Proof.
  intros [Hn Hl _ _ _ _]. apply snoc_of_length. lia.
Qed.

Lemma Inv_window_cons (n : nat) (s : Sys) :
  Inv n s -> exists frame rest, rollingWindow (breaker s) = frame :: rest.
Proof.
  intros [Hn Hl _ _ _ _].
  destruct (rollingWindow (breaker s)) as [|frame rest]; simpl in Hl.
  - lia.
  - now exists frame, rest.
Qed.

Lemma Inv_window_snoc2 (n : nat) (s : Sys) :
  Inv n s -> state (breaker s) = HalfOpen ->
  exists init prev x, rollingWindow (breaker s) = (init ++ [prev]) ++ [x].
Proof.
  intros [Hn Hl _ _ _ _] Hst. apply snoc2_of_length.
  rewrite Hl, Hst. unfold isHalfOpen. simpl. lia.
Qed.

Lemma Inv_bumpSuccess (n : nat) (s : Sys) (init : list Counts) (x : Counts) :
  Inv n s ->
  rollingWindow (breaker s) = init ++ [x] ->
  Inv n (onBreaker (fun c => set_summary (bumpSuccess (summary c))
                               (set_window (init ++ [bumpSuccess x]) c)) s).
Proof.
  intros H Hw. destruct H as [Hn Hl [Hs [Hs' Hs'']] Hf Hc Ha].
  rewrite Hw in *. rewrite sumBy_snoc in Hs, Hs', Hs''.
  apply Forall_app in Hf as [Hf Hx]. inversion Hx; subst.
  constructor; simpl; auto.
  - rewrite length_app in *. exact Hl.
  - repeat split; simpl; rewrite sumBy_snoc; simpl.
    + rewrite Hs. u64.
    + rewrite Hs'. reflexivity.
    + rewrite Hs''. u64.
  - apply Forall_app. split; [assumption|].
    constructor; [|constructor]. now apply consistent_bumpSuccess.
  - now apply consistent_bumpSuccess.
Qed.

Lemma Inv_bumpFail (n : nat) (s : Sys) (init : list Counts) (x : Counts) :
  Inv n s ->
  rollingWindow (breaker s) = init ++ [x] ->
  Inv n (onBreaker (fun c => set_summary (bumpFail (summary c))
                               (set_window (init ++ [bumpFail x]) c)) s).
Proof.
  intros H Hw. destruct H as [Hn Hl [Hs [Hs' Hs'']] Hf Hc Ha].
  rewrite Hw in *. rewrite sumBy_snoc in Hs, Hs', Hs''.
  apply Forall_app in Hf as [Hf Hx]. inversion Hx; subst.
  constructor; simpl; auto.
  - rewrite length_app in *. exact Hl.
  - repeat split; simpl; rewrite sumBy_snoc; simpl.
    + rewrite Hs. u64.
    + rewrite Hs'. u64.
    + rewrite Hs''. reflexivity.
  - apply Forall_app. split; [assumption|].
    constructor; [|constructor]. now apply consistent_bumpFail.
  - now apply consistent_bumpFail.
Qed.

Lemma Inv_incrSuccess (n : nat) (s : Sys) :
  Inv n s -> Inv n (snd (@incrSuccess W V s)).
Proof.
  intros H. destruct (Inv_window_snoc n s H) as [init [x Hw]].
  rewrite (incrSuccess_snoc s init x Hw). now apply Inv_bumpSuccess.
Qed.

Lemma Inv_incrFail (n : nat) (s : Sys) :
  Inv n s -> Inv n (snd (@incrFail W V s)).
Proof.
  intros H. destruct (Inv_window_snoc n s H) as [init [x Hw]].
  rewrite (incrFail_snoc s init x Hw). now apply Inv_bumpFail.
Qed.

Lemma Inv_moveWindow (n : nat) (s : Sys) :
  Inv n s -> Inv n (snd (@moveWindow W V s)).
Proof.
  intros H. destruct (Inv_window_cons n s H) as [frame [rest Hw]].
  rewrite (moveWindow_cons s frame rest Hw).
  destruct H as [Hn Hl [Hs [Hs' Hs'']] Hf Hc Ha].
  rewrite Hw in *. simpl in Hs, Hs', Hs''. inversion Hf; subst.
  constructor; simpl; auto.
  - rewrite length_app. simpl in *. lia.
  - repeat split; simpl; rewrite sumBy_snoc; simpl.
    + rewrite Hs, sub_add_cancel_l. rewrite <- (sumBy_wrap Total rest) at 1. u64.
    + rewrite Hs', sub_add_cancel_l. rewrite <- (sumBy_wrap Fail rest) at 1. u64.
    + rewrite Hs'', sub_add_cancel_l. rewrite <- (sumBy_wrap Success rest) at 1. u64.
  - apply Forall_app. split; [assumption|].
    constructor; [apply consistent_zero|constructor].
  - now apply consistent_sub.
Qed.

Lemma Inv_world (n : nat) (s : Sys) (w : W) :
  Inv n s -> Inv n (mkSys (breaker s) (waitHalfOpenG s) (renewFrameG s) w).
Proof. intros []. now constructor. Qed.

Lemma Inv_renewer (n : nat) (s : Sys) (b : bool) :
  Inv n s -> Inv n (mkSys (breaker s) (waitHalfOpenG s) b (world s)).
Proof. intros []. now constructor. Qed.

Lemma Inv_flag (n : nat) (s : Sys) (b : bool) (g : waiters) :
  Inv n s -> armed g = armed (waitHalfOpenG s) ->
  Inv n (mkSys (set_onHalfOpenTimeout b (breaker s)) g (renewFrameG s) (world s)).
Proof. intros [] Hg. constructor; simpl; auto. congruence. Qed.

Lemma Inv_afterExecute (n : nat) (s : Sys) :
  Inv n s -> Inv n (snd (@afterExecute W V s)).
Proof.
  intros H. destruct (state (breaker s)) eqn:Hst.
  - (* Closed *)
    rewrite (afterExecute_Closed s Hst). simpl.
    destruct (canTrip (breaker s) (summary (breaker s))); [|assumption].
    destruct H as [Hn Hl Hs Hf Hc Ha]. rewrite Hst in *.
    constructor; simpl; auto.
    unfold armed, isOpen in *. simpl in *. lia.
  - (* HalfOpen *)
    destruct (Inv_window_snoc2 n s H Hst) as [init [prev [x Hw]]].
    destruct (fromHalfOpenToState (breaker s) x) eqn:Hp.
    + rewrite (afterExecute_HalfOpen_Closed s init prev x Hst Hw Hp). simpl.
      destruct H as [Hn Hl [Hs [Hs' Hs'']] Hf Hc Ha]. rewrite Hst, Hw in *.
      rewrite !sumBy_snoc in Hs, Hs', Hs''.
      apply Forall_app in Hf as [Hf Hx]. apply Forall_app in Hf as [Hf Hprev].
      inversion Hx; inversion Hprev; subst.
      constructor; simpl; auto.
      * rewrite !length_app in *. unfold isHalfOpen in *. simpl in *. lia.
      * repeat split; simpl; rewrite sumBy_snoc; simpl.
        -- rewrite Hs. u64.
        -- rewrite Hs'. u64.
        -- rewrite Hs''. u64.
      * apply Forall_app. split; [assumption|].
        constructor; [|constructor]. now apply consistent_add.
    + rewrite (afterExecute_HalfOpen_stay s _ x Hst Hw Hp). exact H.
    + destruct (onHalfOpenTimeout (breaker s)) eqn:Hflag.
      * rewrite (afterExecute_HalfOpen_guarded s _ x Hst Hw Hp Hflag). exact H.
      * rewrite (afterExecute_HalfOpen_Open s _ x Hst Hw Hp Hflag). simpl.
        destruct H as [Hn Hl [Hs [Hs' Hs'']] Hf Hc Ha]. rewrite Hst, Hw in *.
        rewrite (sumBy_snoc Total (init ++ [prev])) in Hs.
        rewrite (sumBy_snoc Fail (init ++ [prev])) in Hs'.
        rewrite (sumBy_snoc Success (init ++ [prev])) in Hs''.
        apply Forall_app in Hf as [Hf Hx]. inversion Hx; subst.
        constructor; simpl; auto.
        -- rewrite (length_app (init ++ [prev])) in Hl.
           unfold isHalfOpen in *. simpl in *. lia.
        -- repeat split; simpl.
           ++ rewrite Hs. apply sub_add_cancel.
           ++ rewrite Hs'. apply sub_add_cancel.
           ++ rewrite Hs''. apply sub_add_cancel.
        -- now apply consistent_sub.
        -- unfold armed, isOpen in *. simpl in *. lia.
  - (* Open *)
    rewrite (afterExecute_Open s Hst). exact H.
Qed.
End InvariantFacts.

(** * [Execute] *)

Section ExecuteFacts.
Context {W E V : Type}.

#[local] Abbreviation Sys := (Sys W).

Lemma canExecute_eq (s : Sys) :
  @canExecute W E V s =
  (Done (if State_eqb (state (breaker s)) Open then Some ErrOpenCircuit else None), s).
Proof.
  unfold canExecute, bind, gets.
  destruct (State_eqb (state (breaker s)) Open); reflexivity.
Qed.

Lemma State_eqb_eq (a b : State) : State_eqb a b = true <-> a = b.
Proof. destruct a, b; simpl; split; congruence. Qed.

Lemma State_eqb_neq (a b : State) : State_eqb a b = false <-> a <> b.
Proof. destruct a, b; simpl; split; congruence. Qed.

Lemma Execute_Open (fn : circuitCall W E V) (s : Sys) :
  state (breaker s) = Open ->
  Execute fn s = (Done (Some ErrOpenCircuit), s).
Proof.
  intros Hst. unfold Execute, with_defer, bind.
  rewrite canExecute_eq, Hst. simpl.
  rewrite (afterExecute_Open s Hst). reflexivity.
Qed.

Lemma Execute_admitted (fn : circuitCall W E V) (s : Sys)
      (init : list Counts) (x : Counts) (r : callResult E V) (w' : W) :
  state (breaker s) <> Open ->
  rollingWindow (breaker s) = init ++ [x] ->
  fn (world s) = (r, w') ->
  Execute fn s =
  with_defer afterExecute (fun s2 => (handedBack r, s2))
    (mkSys (set_summary (bumpFor r (summary (breaker s)))
              (set_window (init ++ [bumpFor r x]) (breaker s)))
           (waitHalfOpenG s) (renewFrameG s) w').
Proof.
  intros Hst Hw Hfn. apply State_eqb_neq in Hst.
  unfold Execute, with_defer at 1, bind at 1.
  rewrite canExecute_eq, Hst.
  unfold with_recover, bind, call. rewrite Hfn.
  destruct r as [[e|]|v].
  - erewrite incrFail_snoc by (simpl; exact Hw). reflexivity.
  - erewrite incrSuccess_snoc by (simpl; exact Hw). reflexivity.
  - erewrite incrFail_snoc by (simpl; exact Hw). reflexivity.
Qed.

Lemma afterExecute_Done (s : Sys) :
  (state (breaker s) = HalfOpen -> (2 <= length (rollingWindow (breaker s)))%nat) ->
  fst (@afterExecute W V s) = Done tt.
Proof.
  intros Hl. destruct (state (breaker s)) eqn:Hst.
  - now rewrite (afterExecute_Closed s Hst).
  - destruct (snoc2_of_length _ (Hl eq_refl)) as [init [prev [x Hw]]].
    destruct (fromHalfOpenToState (breaker s) x) eqn:Hp.
    + now rewrite (afterExecute_HalfOpen_Closed s init prev x Hst Hw Hp).
    + now rewrite (afterExecute_HalfOpen_stay s _ x Hst Hw Hp).
    + destruct (onHalfOpenTimeout (breaker s)) eqn:Hflag.
      * now rewrite (afterExecute_HalfOpen_guarded s _ x Hst Hw Hp Hflag).
      * now rewrite (afterExecute_HalfOpen_Open s _ x Hst Hw Hp Hflag).
  - now rewrite (afterExecute_Open s Hst).
Qed.

Lemma afterExecute_world (s : Sys) :
  world (snd (@afterExecute W V s)) = world s.
Proof.
  unfold afterExecute, summaryCopy, currentFrameCopy, bind, gets.
  destruct (state (breaker s)); simpl.
  - destruct (canTrip (breaker s) (summary (breaker s))); reflexivity.
  - destruct (rollingWindow (breaker s)) as [|c l] eqn:Hw.
    + rewrite (lastFrame_nil s Hw). reflexivity.
    + destruct (snoc_of_length (c :: l)) as [init [x Hx]]; [simpl; lia|].
      rewrite Hx in Hw. rewrite (lastFrame_snoc s init x Hw).
      destruct (fromHalfOpenToState (breaker s) x); simpl.
      * unfold aggregateHalfOpenFrame, bind.
        erewrite popFrame_snoc by (simpl; exact Hw).
        destruct init as [|c' l'] using rev_ind.
        -- erewrite assignLastFrame_nil by reflexivity. reflexivity.
        -- erewrite assignLastFrame_snoc by reflexivity.
           erewrite assignLastFrame_snoc by reflexivity.
           erewrite assignLastFrame_snoc by reflexivity.
           reflexivity.
      * reflexivity.
      * destruct (onHalfOpenTimeout (breaker s)); simpl; [reflexivity|].
        unfold go_waitHalfOpen. simpl.
        erewrite popWindow_snoc by (simpl; exact Hw). reflexivity.
  - reflexivity.
Qed.

Lemma Inv_recorded (n : nat) (s : Sys) (init : list Counts) (x : Counts)
      (r : callResult E V) (w' : W) :
  Inv n s ->
  rollingWindow (breaker s) = init ++ [x] ->
  Inv n (mkSys (set_summary (bumpFor r (summary (breaker s)))
                  (set_window (init ++ [bumpFor r x]) (breaker s)))
               (waitHalfOpenG s) (renewFrameG s) w').
Proof.
  intros H Hw. apply (Inv_world n _ w') in H.
  destruct r as [[e|]|v]; simpl bumpFor.
  - exact (Inv_bumpFail n _ init x H Hw).
  - exact (Inv_bumpSuccess n _ init x H Hw).
  - exact (Inv_bumpFail n _ init x H Hw).
Qed.

Lemma Inv_Execute (n : nat) (fn : circuitCall W E V) (s : Sys) :
  Inv n s -> Inv n (snd (Execute fn s)).
Proof.
  intros H. destruct (State_eqb (state (breaker s)) Open) eqn:Hst.
  - apply State_eqb_eq in Hst. now rewrite (Execute_Open fn s Hst).
  - apply State_eqb_neq in Hst.
    destruct (Inv_window_snoc n s H) as [init [x Hw]].
    destruct (fn (world s)) as [r w'] eqn:Hfn.
    rewrite (Execute_admitted fn s init x r w' Hst Hw Hfn).
    pose proof (Inv_recorded n s init x r w' H Hw) as Hs1.
    apply (Inv_afterExecute (V := V)) in Hs1.
    unfold with_defer.
    destruct (afterExecute _) as [[u|p] s2]; exact Hs1.
Qed.
End ExecuteFacts.

(** * Steps and runs *)

Section StepFacts.
Context {W E V : Type}.

#[local] Abbreviation Sys := (Sys W).

Lemma Inv_waitHalfOpen_store (n : nat) (s : Sys) :
  Inv n s -> Inv n (waitHalfOpen_store s).
Proof.
  intros H. unfold waitHalfOpen_store.
  destruct (spawned (waitHalfOpenG s)) as [|k] eqn:Hk; [assumption|].
  apply Inv_flag; [assumption|]. unfold armed. simpl. lia.
Qed.

Lemma Inv_waitHalfOpen_done (n : nat) (s : Sys) :
  Inv n s -> Inv n (waitHalfOpen_done s).
Proof.
  intros H. unfold waitHalfOpen_done.
  destruct (finishing (waitHalfOpenG s)) as [|k] eqn:Hk; [assumption|].
  apply Inv_flag; [assumption|]. reflexivity.
Qed.

(** A goroutine can only be asleep while the breaker is open. *)
Lemma Inv_sleeping_Open (n : nat) (s : Sys) (k : nat) :
  Inv n s -> sleeping (waitHalfOpenG s) = S k ->
  state (breaker s) = Open /\ spawned (waitHalfOpenG s) = 0%nat /\ k = 0%nat.
Proof.
  intros [_ _ _ _ _ Ha] Hk. unfold armed, isOpen in Ha. rewrite Hk in Ha.
  destruct (state (breaker s)); simpl in Ha; try lia. repeat split; lia.
Qed.

Lemma Inv_waitHalfOpen_fire (n : nat) (s : Sys) :
  Inv n s -> Inv n (waitHalfOpen_fire (V := V) s).
Proof.
  intros H. unfold waitHalfOpen_fire.
  destruct (sleeping (waitHalfOpenG s)) as [|k] eqn:Hk; [assumption|].
  destruct (Inv_sleeping_Open n s k H Hk) as [Hst [Hsp ->]].
  destruct H as [Hn Hl [Hs [Hs' Hs'']] Hf Hc Ha]. rewrite Hst in *.
  constructor; simpl; auto.
  - rewrite length_app. unfold isHalfOpen in *. simpl in *. lia.
  - repeat split; simpl; rewrite sumBy_snoc; simpl.
    + rewrite Hs. rewrite <- (sumBy_wrap Total) at 1. u64.
    + rewrite Hs'. rewrite <- (sumBy_wrap Fail) at 1. u64.
    + rewrite Hs''. rewrite <- (sumBy_wrap Success) at 1. u64.
  - apply Forall_app. split; [assumption|].
    constructor; [apply consistent_zero|constructor].
  - unfold armed, isOpen. simpl. lia.
Qed.

Lemma Inv_renewFrame_tick (n : nat) (s : Sys) :
  Inv n s -> Inv n (renewFrame_tick (V := V) s).
Proof.
  intros H. unfold renewFrame_tick.
  destruct (renewFrameG s); [|assumption].
  destruct (State_eqb (state (breaker s)) Closed).
  - now apply Inv_moveWindow.
  - now apply Inv_renewer.
Qed.

Lemma Inv_call (n : nat) (fn : circuitCall W E V) (s : Sys) :
  Inv n s -> Inv n (snd (call fn s)).
Proof.
  intros H. unfold call. destruct (fn (world s)) as [[err|v] w']; simpl.
  - now apply Inv_world.
  - now apply Inv_world.
Qed.

Lemma Inv_step (n : nat) (a : action (W := W) (E := E) (V := V)) (s : Sys) :
  Inv n s -> Inv n (step a s).
Proof.
  intros H. destruct a; simpl.
  - now apply Inv_Execute.
  - rewrite canExecute_eq. exact H.
  - now apply Inv_call.
  - now apply Inv_incrSuccess.
  - now apply Inv_incrFail.
  - now apply Inv_afterExecute.
  - now apply Inv_renewFrame_tick.
  - now apply Inv_waitHalfOpen_store.
  - now apply Inv_waitHalfOpen_fire.
  - now apply Inv_waitHalfOpen_done.
Qed.

Lemma Inv_run (n : nat) (trace : list (action (W := W) (E := E) (V := V))) (s : Sys) :
  Inv n s -> Inv n (run trace s).
Proof.
  revert s. induction trace as [|a trace IH]; intros s H; simpl.
  - exact H.
  - apply IH. now apply Inv_step.
Qed.
End StepFacts.

(** * Construction *)

Lemma is_With_positive (o : option_) (cbOpts cbOpts' : optionsConfiguration) :
  is_With o -> positive_thresholds cbOpts -> o cbOpts = inl cbOpts' ->
  positive_thresholds cbOpts'.
Proof.
  unfold positive_thresholds.
  intros [[k ->]|[[k ->]|[[k ->]|[[f ->]|[f ->]]]]] (Hf & Hr & Hh).
  - unfold WithWindowFrameThreshold. destruct (Z.leb_spec k 0); [discriminate|].
    intros [= <-]. simpl. auto.
  - unfold WithWindowRollThreshold. destruct (Z.leb_spec k 0); [discriminate|].
    intros [= <-]. simpl. auto.
  - unfold WithHalfOpenThreshold. destruct (Z.leb_spec k 0); [discriminate|].
    intros [= <-]. simpl. auto.
  - unfold WithCanTrip. destruct f; [|discriminate]. intros [= <-]. simpl. auto.
  - unfold WithFromHalfOpenToState. destruct f; [|discriminate].
    intros [= <-]. simpl. auto.
Qed.

Lemma applyOptions_positive (opts : list option_) (cbOpts cbOpts' : optionsConfiguration) :
  Forall is_With opts -> positive_thresholds cbOpts ->
  applyOptions opts cbOpts = inl cbOpts' -> positive_thresholds cbOpts'.
Proof.
  intros Hall. revert cbOpts.
  induction Hall as [|o opts Ho _ IH]; intros cbOpts Hpos; simpl.
  - intros [= <-]. exact Hpos.
  - destruct (o cbOpts) as [c1|err] eqn:Hc; [|discriminate].
    apply IH. exact (is_With_positive o cbOpts c1 Ho Hpos Hc).
Qed.

Lemma defaultOptions_positive : positive_thresholds defaultOptions.
Proof. unfold positive_thresholds; simpl. repeat split; reflexivity. Qed.

(** What [New] returns when it returns a breaker. *)
Lemma New_inl (opts : list option_) (cb : CircuitBreaker) :
  New opts = inl cb ->
  exists cbOpts,
    applyOptions opts defaultOptions = inl cbOpts
    /\ opt_windowFrame cbOpts <= opt_windowRoll cbOpts
    /\ state cb = Closed
    /\ onHalfOpenTimeout cb = false
    /\ canTrip cb = opt_canTrip cbOpts
    /\ fromHalfOpenToState cb = opt_fromHalfOpenToState cbOpts
    /\ rollingWindow cb = make_window (frames cbOpts)
    /\ summary cb = zeroCounts.
Proof.
  unfold New. destruct (applyOptions opts defaultOptions) as [cbOpts|err]; [|discriminate].
  destruct (Z.gtb_spec (opt_windowFrame cbOpts) (opt_windowRoll cbOpts)); [discriminate|].
  intros [= <-]. exists cbOpts. simpl. repeat split; auto.
Qed.

Lemma frames_positive (cbOpts : optionsConfiguration) :
  positive_thresholds cbOpts ->
  opt_windowFrame cbOpts <= opt_windowRoll cbOpts ->
  1 <= frames cbOpts.
Proof.
  intros (Hf & Hr & _) Hle. unfold frames.
  apply Z.quot_le_lower_bound; lia.
Qed.

Lemma Inv_boot {W : Type} (opts : list option_) (cbOpts : optionsConfiguration)
      (cb : CircuitBreaker) (w : W) :
  Forall is_With opts ->
  applyOptions opts defaultOptions = inl cbOpts ->
  New opts = inl cb ->
  Inv (Z.to_nat (frames cbOpts)) (boot cb w).
Proof.
  intros Hall Happ Hnew.
  destruct (New_inl opts cb Hnew) as (o & Ho & Hle & Hst & _ & _ & _ & Hw & Hsm).
  rewrite Happ in Ho. injection Ho as <-.
  pose proof (applyOptions_positive opts _ _ Hall defaultOptions_positive Happ) as Hpos.
  pose proof (frames_positive cbOpts Hpos Hle) as Hfr.
  constructor; unfold summary_is_sum; simpl; rewrite ?Hst, ?Hw, ?Hsm.
  - lia.
  - unfold make_window. rewrite repeat_length. unfold isHalfOpen. simpl. lia.
  - unfold make_window. simpl.
    rewrite !sumBy_repeat_zero by reflexivity. auto.
  - unfold make_window. apply Forall_forall. intros c Hc.
    apply repeat_spec in Hc. subst. apply consistent_zero.
  - apply consistent_zero.
  - reflexivity.
Qed.

(** * The scenarios *)

Lemma New_smallOptions : New smallOptions = inl smallBreaker.
Proof. reflexivity. Qed.

Lemma New_oddOptions : New oddOptions = inl oddBreaker.
Proof. reflexivity. Qed.

Lemma New_default : New [] = inl defaultBreaker.
Proof. reflexivity. Qed.

Lemma smallOptions_With : Forall is_With smallOptions.
Proof.
  apply Forall_cons; [left; now exists 10|].
  apply Forall_cons; [right; left; now exists 30|].
  apply Forall_cons; [right; right; left; now exists 2|].
  apply Forall_nil.
Qed.

Lemma oddOptions_With : Forall is_With oddOptions.
Proof.
  apply Forall_cons; [left; now exists 222|].
  apply Forall_cons; [right; left; now exists 4759|].
  apply Forall_cons; [right; right; left; now exists 21|].
  apply Forall_nil.
Qed.

(** * The default policies *)

(** C10. The default trip policy answers on every [Counts], and answers
    [false] whenever [Total <= 10]: the test [Total > 10] comes first, so
    the failure ratio, and with it a division by a zero [Total], never
    decides a trip. *)
Theorem defaultCanTrip_needs_more_than_ten (summary : Counts) :
  Total summary <= 10 -> defaultCanTrip summary = false.
Proof.
  intros Hle. unfold defaultCanTrip.
  destruct (Z.ltb_spec 10 (Total summary)) as [Hlt|_]; [lia|]. reflexivity.
Qed.

Lemma defaultCanTrip_needs_more_than_ten_witness :
  Total (mkCounts 10 10 0) <= 10 /\ defaultCanTrip (mkCounts 10 10 0) = false.
Proof.
  split.
  - simpl. lia.
  - apply (defaultCanTrip_needs_more_than_ten (mkCounts 10 10 0)). simpl. lia.
Defined.

(** C6, as the code has it. The default Half-Open policy returns [Open]
    for counts with a failure; without a failure it returns [Closed] once
    more than 100 calls are counted and [HalfOpen] up to 100 calls, a
    single clean success included. *)
Theorem defaultFromHalfOpenToState_cases (summary : Counts) :
  0 <= Fail summary ->
  (0 < Fail summary -> defaultFromHalfOpenToState summary = Open)
  /\ (Fail summary = 0 -> 100 < Total summary ->
      defaultFromHalfOpenToState summary = Closed)
  /\ (Fail summary = 0 -> Total summary <= 100 ->
      defaultFromHalfOpenToState summary = HalfOpen).
Proof.
  intros Hnn. unfold defaultFromHalfOpenToState. repeat split.
  - intros Hpos. destruct (Z.ltb_spec 0 (Fail summary)); [reflexivity|lia].
  - intros H0 Hbig. rewrite H0. simpl.
    destruct (Z.ltb_spec 100 (Total summary)); [|lia]. reflexivity.
  - intros H0 Hsmall. rewrite H0. simpl.
    destruct (Z.ltb_spec 100 (Total summary)); [lia|]. reflexivity.
Qed.

Lemma defaultFromHalfOpenToState_cases_witness :
  0 <= Fail (mkCounts 101 0 101)
  /\ defaultFromHalfOpenToState (mkCounts 101 0 101) = Closed.
Proof.
  split.
  - simpl. lia.
  - apply (defaultFromHalfOpenToState_cases (mkCounts 101 0 101)); simpl; lia.
Defined.

(** C6, as the specification has it, fails on a single clean success:
    the policy keeps the breaker half-open. *)
Lemma defaultFromHalfOpenToState_single_success :
  defaultFromHalfOpenToState (mkCounts 1 0 1) <> Closed.
Proof. discriminate. Qed.

(** * The guard *)

Section Guard.
Context {W E V : Type}.

#[local] Abbreviation Sys := (Sys W).

(** C5. While the breaker is open, [Execute] returns the open-circuit
    error and leaves the whole system as it was: the world of the operation
    is untouched, so the operation did not run, and no frame, summary or
    state changed. *)
Theorem Execute_Open_rejects (fn : circuitCall W E V) (s : Sys) :
  state (breaker s) = Open ->
  Execute fn s = (Done (Some ErrOpenCircuit), s).
Proof.
  intros Hst. unfold Execute, with_defer, bind.
  rewrite canExecute_eq, Hst. simpl.
  rewrite (afterExecute_Open s Hst). reflexivity.
Qed.

Lemma recorded_shape (s : Sys) (init : list Counts) (x : Counts)
      (r : callResult E V) (w' : W) :
  rollingWindow (breaker s) = init ++ [x] ->
  let s1 := mkSys (set_summary (bumpFor r (summary (breaker s)))
                     (set_window (init ++ [bumpFor r x]) (breaker s)))
                  (waitHalfOpenG s) (renewFrameG s) w' in
  summary (breaker s1) = bumpFor r (summary (breaker s))
  /\ rollingWindow (breaker s1)
     = removelast (rollingWindow (breaker s))
       ++ [bumpFor r (last (rollingWindow (breaker s)) zeroCounts)]
  /\ state (breaker s1) = state (breaker s)
  /\ world s1 = w'.
Proof.
  intros Hw. simpl. rewrite Hw, removelast_last, last_last. auto.
Qed.

Lemma Execute_admitted_result (fn : circuitCall W E V) (s : Sys)
      (init : list Counts) (x : Counts) (r : callResult E V) (w' : W) :
  state (breaker s) <> Open ->
  (state (breaker s) = HalfOpen -> (2 <= length (rollingWindow (breaker s)))%nat) ->
  rollingWindow (breaker s) = init ++ [x] ->
  fn (world s) = (r, w') ->
  let s1 := mkSys (set_summary (bumpFor r (summary (breaker s)))
                     (set_window (init ++ [bumpFor r x]) (breaker s)))
                  (waitHalfOpenG s) (renewFrameG s) w' in
  Execute fn s = (handedBack r, snd (afterExecute (V := V) s1)).
Proof.
  intros Hst Hl Hw Hfn s1.
  rewrite (Execute_admitted fn s init x r w' Hst Hw Hfn). fold s1.
  assert (Hdone : fst (afterExecute (V := V) s1) = Done tt).
  { apply afterExecute_Done. subst s1. simpl. intros Hh.
    rewrite length_app. simpl. specialize (Hl Hh).
    rewrite Hw, length_app in Hl. exact Hl. }
  unfold with_defer. destruct (afterExecute s1) as [o s2]. simpl in *.
  now rewrite Hdone.
Qed.


(** C2, as the code has it. While the breaker is half-open every caller
    is admitted: [canExecute] returns [nil] and leaves no trace of the
    admission, the operation runs, its outcome is recorded in the newest
    frame and in the summary, and the caller gets the operation's own
    result. There is no half-open rejection. *)
Theorem HalfOpen_admits_every_caller (fn : circuitCall W E V) (s : Sys)
        (r : callResult E V) (w' : W) :
  state (breaker s) = HalfOpen ->
  (2 <= length (rollingWindow (breaker s)))%nat ->
  fn (world s) = (r, w') ->
  canExecute (E := E) (V := V) s = (Done None, s)
  /\ fst (Execute fn s) = handedBack r
  /\ world (snd (Execute fn s)) = w'
  /\ exists s1 : Sys,
       summary (breaker s1) = bumpFor r (summary (breaker s))
       /\ rollingWindow (breaker s1)
          = removelast (rollingWindow (breaker s))
            ++ [bumpFor r (last (rollingWindow (breaker s)) zeroCounts)]
       /\ snd (Execute fn s) = snd (afterExecute (V := V) s1).
Proof.
  intros Hst Hl Hfn.
  destruct (snoc_of_length (rollingWindow (breaker s))) as [init [x Hw]]; [lia|].
  assert (Hno : state (breaker s) <> Open) by congruence.
  pose proof (Execute_admitted_result fn s init x r w' Hno (fun _ => Hl) Hw Hfn) as Hex.
  destruct (recorded_shape s init x r w' Hw) as (H1 & H2 & H3 & H4).
  split; [|split; [|split]].
  - rewrite canExecute_eq, Hst. reflexivity.
  - now rewrite Hex.
  - rewrite Hex. simpl. now rewrite afterExecute_world.
  - eexists. split; [exact H1|]. split; [exact H2|]. now rewrite Hex.
Qed.

(** C3, as the code has it. When the policy answers [Closed] for the
    probe frame, the breaker closes, the probe frame is taken off the
    window and its counts are added to the frame before it; the summary
    and the goroutines stay as they are. When the policy answers [Open]
    and no recovery goroutine is flagged, the breaker opens again, the
    probe frame is taken off the window and out of the summary, and one
    recovery goroutine is started. *)
Theorem probe_resolution (s : Sys) (init : list Counts) (prev x : Counts) :
  state (breaker s) = HalfOpen ->
  rollingWindow (breaker s) = (init ++ [prev]) ++ [x] ->
  let s' := snd (afterExecute (V := V) s) in
  (fromHalfOpenToState (breaker s) x = Closed ->
   state (breaker s') = Closed
   /\ rollingWindow (breaker s') = init ++ [addCounts prev x]
   /\ summary (breaker s') = summary (breaker s)
   /\ waitHalfOpenG s' = waitHalfOpenG s)
  /\ (fromHalfOpenToState (breaker s) x = Open ->
      onHalfOpenTimeout (breaker s) = false ->
      state (breaker s') = Open
      /\ rollingWindow (breaker s') = init ++ [prev]
      /\ summary (breaker s') = subCounts (summary (breaker s)) x
      /\ waitHalfOpenG s' = spawn (waitHalfOpenG s)).
Proof.
  intros Hst Hw s'. subst s'. split.
  - intros Hp. rewrite (afterExecute_HalfOpen_Closed s init prev x Hst Hw Hp).
    simpl. auto.
  - intros Hp Hflag.
    rewrite (afterExecute_HalfOpen_Open s _ x Hst Hw Hp Hflag). simpl. auto.
Qed.
End Guard.

(** * Reachable states *)

Section Reachable.
Context {W E V : Type}.

#[local] Abbreviation Sys := (Sys W).
#[local] Abbreviation action := (@action W E V).

Lemma run_app (t1 t2 : list action) (s : Sys) :
  run (t1 ++ t2) s = run t2 (run t1 s).
Proof.
  revert s. induction t1 as [|a t1 IH]; intros s; simpl.
  - reflexivity.
  - apply IH.
Qed.

Lemma Inv_reachable (opts : list option_) (cb : CircuitBreaker) (w : W)
      (trace : list action) :
  Forall is_With opts -> New opts = inl cb ->
  1 <= framesOf opts
  /\ Inv (Z.to_nat (framesOf opts)) (run trace (boot cb w)).
Proof.
  intros Hall Hnew.
  destruct (New_inl opts cb Hnew) as (cbOpts & Happ & Hle & _).
  pose proof (applyOptions_positive opts _ _ Hall defaultOptions_positive Happ) as Hpos.
  unfold framesOf. rewrite Happ. split.
  - now apply frames_positive.
  - apply Inv_run. now apply (Inv_boot opts).
Qed.



End Reachable.

(** * Tripping *)

Section Trip.
Context {W E V : Type}.

#[local] Abbreviation Sys := (Sys W).
#[local] Abbreviation action := (@action W E V).

(** One call of the tests' operation on a closed breaker. *)
Lemma fixture_call_Closed (err : option (error E)) (s : Sys) :
  state (breaker s) = Closed ->
  rollingWindow (breaker s) <> [] ->
  let s' := step (ActExecute (V := V) (fixtureCircuitCall err)) s in
  summary (breaker s') = bumpOf err (summary (breaker s))
  /\ rollingWindow (breaker s') <> []
  /\ canTrip (breaker s') = canTrip (breaker s)
  /\ state (breaker s')
     = if canTrip (breaker s) (bumpOf err (summary (breaker s))) then Open else Closed.
Proof.
  intros Hst Hne.
  destruct (snoc_of_length (rollingWindow (breaker s))) as [init [x Hw]].
  { destruct (rollingWindow (breaker s)); [congruence|simpl; lia]. }
  unfold step.
  rewrite (Execute_admitted (fixtureCircuitCall err) s init x (Returns err) (world s));
    [|congruence|exact Hw|reflexivity].
  unfold with_defer. rewrite afterExecute_Closed by exact Hst.
  destruct err as [e|]; simpl;
    match goal with
    | |- context [canTrip ?c ?sm] => destruct (canTrip c sm)
    end; simpl; repeat split; auto using snoc_not_nil.
Qed.

(** A row of such calls, none of which trips the breaker. *)
Lemma feed_stays_Closed (calls : list (option (error E))) (s : Sys) :
  state (breaker s) = Closed ->
  rollingWindow (breaker s) <> [] ->
  (forall k, (0 < k <= length calls)%nat ->
             canTrip (breaker s) (tally (firstn k calls) (summary (breaker s))) = false) ->
  let s' := run (syncFeedCircuitBreakerHelper (V := V) calls) s in
  state (breaker s') = Closed
  /\ summary (breaker s') = tally calls (summary (breaker s))
  /\ rollingWindow (breaker s') <> []
  /\ canTrip (breaker s') = canTrip (breaker s).
Proof.
  revert s. induction calls as [|err calls IH]; intros s Hst Hne Hno; simpl.
  - auto.
  - destruct (fixture_call_Closed err s Hst Hne) as (Hsm & Hne' & Hct & Hst').
    simpl in Hsm, Hne', Hct, Hst'.
    pose proof (Hno 1%nat ltac:(simpl; lia)) as H1. simpl in H1.
    rewrite H1 in Hst'.
    destruct (IH _ Hst' Hne') as (Hst2 & Hsm2 & Hne2 & Hct2).
    { intros k Hk. rewrite Hct, Hsm.
      apply (Hno (S k)). simpl. lia. }
    fold (syncFeedCircuitBreakerHelper (W := W) (V := V) calls).
    repeat split; try assumption.
    + rewrite Hsm2, Hsm. reflexivity.
    + congruence.
Qed.

(** C4. On a fresh closed breaker with the default trip policy, seven
    failing calls followed by four successful ones leave the breaker
    closed after each of the first ten and open after the eleventh; the
    twelfth call, whatever its operation, gets the open-circuit error and
    changes nothing. *)
Theorem default_trips_on_eleventh (s : Sys) (e : E) :
  state (breaker s) = Closed ->
  summary (breaker s) = zeroCounts ->
  rollingWindow (breaker s) <> [] ->
  canTrip (breaker s) = defaultCanTrip ->
  let calls := sevenThenFour e in
  (forall k, (k < 11)%nat ->
     state (breaker (run (syncFeedCircuitBreakerHelper (V := V) (firstn k calls)) s))
     = Closed)
  /\ state (breaker (run (syncFeedCircuitBreakerHelper (V := V) calls) s)) = Open
  /\ forall fn : circuitCall W E V,
       Execute fn (run (syncFeedCircuitBreakerHelper (V := V) calls) s)
       = (Done (Some ErrOpenCircuit), run (syncFeedCircuitBreakerHelper (V := V) calls) s).
Proof.
  intros Hst Hsm Hne Hct calls.
  assert (Hprefix : forall k, (k < 11)%nat ->
            let s' := run (syncFeedCircuitBreakerHelper (V := V) (firstn k calls)) s in
            state (breaker s') = Closed
            /\ summary (breaker s') = tally (firstn k calls) zeroCounts
            /\ rollingWindow (breaker s') <> []
            /\ canTrip (breaker s') = defaultCanTrip).
  { intros k Hk.
    destruct (feed_stays_Closed (firstn k calls) s Hst Hne) as (H1 & H2 & H3 & H4).
    - intros j Hj. rewrite Hct, Hsm, firstn_firstn.
      clear Hj.
      assert (Hj10 : (Nat.min j k <= 10)%nat).
      { pose proof (Nat.le_min_r j k) as Hmin. clear - Hmin Hk. lia. }
      revert Hj10. generalize (Nat.min j k). intros m Hm.
      do 11 (destruct m as [|m]; [vm_compute; reflexivity|]). lia.
    - cbv zeta. rewrite H2, H4, Hsm, Hct. auto. }
  assert (Hopen : state (breaker (run (syncFeedCircuitBreakerHelper (V := V) calls) s)) = Open).
  { destruct (Hprefix 10%nat ltac:(clear; lia)) as (H1 & H2 & H3 & H4).
    cbv zeta in H1, H2, H3, H4.
    change calls with (firstn 10 calls ++ [None]).
    unfold syncFeedCircuitBreakerHelper at 1. rewrite map_app, run_app.
    fold (syncFeedCircuitBreakerHelper (W := W) (V := V) (firstn 10 calls)).
    remember (run (syncFeedCircuitBreakerHelper (firstn 10 calls)) s) as s10 eqn:Hs10.
    destruct (fixture_call_Closed (@None (error E)) s10 H1 H3) as (_ & _ & _ & H5).
    cbv zeta in H5.
    change (run (map (fun err => ActExecute (fixtureCircuitCall err)) [None]) s10)
      with (step (ActExecute (E := E) (V := V) (fixtureCircuitCall None)) s10).
    rewrite H5, H4, H2. clear. vm_compute. reflexivity. }
  split; [|split].
  - intros k Hk. apply (Hprefix k Hk).
  - exact Hopen.
  - intros fn. now apply Execute_Open.
Qed.
End Trip.

(** * The statements at work *)




Lemma Execute_Open_rejects_witness :
  state (breaker openSys) = Open
  /\ Execute (counted None) openSys = (Done (Some ErrOpenCircuit), openSys).
Proof.
  split.
  - vm_compute. reflexivity.
  - apply Execute_Open_rejects. vm_compute. reflexivity.
Defined.


Lemma HalfOpen_admits_every_caller_witness :
  state (breaker halfOpenSys) = HalfOpen
  /\ (2 <= length (rollingWindow (breaker halfOpenSys)))%nat
  /\ counted None (world halfOpenSys) = (Returns None, 1%nat)
  /\ canExecute (E := string) (V := string) halfOpenSys = (Done None, halfOpenSys)
  /\ fst (Execute (counted None) halfOpenSys) = Done None
  /\ world (snd (Execute (counted None) halfOpenSys)) = 1%nat.
Proof.
  assert (H1 : state (breaker halfOpenSys) = HalfOpen) by (vm_compute; reflexivity).
  assert (H2 : (2 <= length (rollingWindow (breaker halfOpenSys)))%nat)
    by (vm_compute; lia).
  assert (H3 : counted None (world halfOpenSys) = (Returns None, 1%nat))
    by (vm_compute; reflexivity).
  split; [exact H1|]. split; [exact H2|]. split; [exact H3|].
  destruct (HalfOpen_admits_every_caller (counted None) halfOpenSys
              (Returns None) 1%nat H1 H2 H3) as (Ha & Hb & Hc & _).
  split; [exact Ha|]. split; [exact Hb|exact Hc].
Defined.

Lemma probe_resolution_witness :
  (state (breaker probePassedSys) = HalfOpen
   /\ rollingWindow (breaker probePassedSys)
      = (repeat zeroCounts 2 ++ [mkCounts 11 7 4]) ++ [mkCounts 101 0 101]
   /\ fromHalfOpenToState (breaker probePassedSys) (mkCounts 101 0 101) = Closed
   /\ rollingWindow (breaker (snd (afterExecute (V := string) probePassedSys)))
      = repeat zeroCounts 2 ++ [addCounts (mkCounts 11 7 4) (mkCounts 101 0 101)])
  /\ (state (breaker probeFailedSys) = HalfOpen
      /\ rollingWindow (breaker probeFailedSys)
         = (repeat zeroCounts 2 ++ [mkCounts 11 7 4]) ++ [mkCounts 1 1 0]
      /\ fromHalfOpenToState (breaker probeFailedSys) (mkCounts 1 1 0) = Open
      /\ onHalfOpenTimeout (breaker probeFailedSys) = false
      /\ state (breaker (snd (afterExecute (V := string) probeFailedSys))) = Open).
Proof.
  split.
  - assert (H1 : state (breaker probePassedSys) = HalfOpen) by (vm_compute; reflexivity).
    assert (H2 : rollingWindow (breaker probePassedSys)
                 = (repeat zeroCounts 2 ++ [mkCounts 11 7 4]) ++ [mkCounts 101 0 101])
      by (vm_compute; reflexivity).
    assert (H3 : fromHalfOpenToState (breaker probePassedSys) (mkCounts 101 0 101) = Closed)
      by (vm_compute; reflexivity).
    split; [exact H1|]. split; [exact H2|]. split; [exact H3|].
    apply (probe_resolution (V := string) probePassedSys _ _ _ H1 H2). exact H3.
  - assert (H1 : state (breaker probeFailedSys) = HalfOpen) by (vm_compute; reflexivity).
    assert (H2 : rollingWindow (breaker probeFailedSys)
                 = (repeat zeroCounts 2 ++ [mkCounts 11 7 4]) ++ [mkCounts 1 1 0])
      by (vm_compute; reflexivity).
    assert (H3 : fromHalfOpenToState (breaker probeFailedSys) (mkCounts 1 1 0) = Open)
      by (vm_compute; reflexivity).
    assert (H4 : onHalfOpenTimeout (breaker probeFailedSys) = false)
      by (vm_compute; reflexivity).
    split; [exact H1|]. split; [exact H2|]. split; [exact H3|]. split; [exact H4|].
    apply (probe_resolution (V := string) probeFailedSys _ _ _ H1 H2); assumption.
Defined.

Lemma default_trips_on_eleventh_witness :
  state (breaker (boot defaultBreaker 0%nat)) = Closed
  /\ summary (breaker (boot defaultBreaker 0%nat)) = zeroCounts
  /\ rollingWindow (breaker (boot defaultBreaker 0%nat)) <> []
  /\ canTrip (breaker (boot defaultBreaker 0%nat)) = defaultCanTrip
  /\ state (breaker (run (syncFeedCircuitBreakerHelper (V := string)
                            (sevenThenFour "execute error"%string))
                         (boot defaultBreaker 0%nat))) = Open.
Proof.
  assert (H3 : rollingWindow (breaker (boot defaultBreaker 0%nat)) <> [])
    by (vm_compute; discriminate).
  split; [reflexivity|]. split; [reflexivity|]. split; [exact H3|].
  split; [reflexivity|].
  apply (default_trips_on_eleventh (V := string) (boot defaultBreaker 0%nat)
           "execute error"%string eq_refl eq_refl H3 eq_refl).
Defined.

(** * Where the specification and the code part *)

(** C2, as the specification has it, fails: with a first caller admitted
    and still inside its operation, a second call on the half-open breaker
    runs its operation, returns [nil] and is counted. *)
Lemma HalfOpen_second_caller_runs :
  state (breaker busySys) = HalfOpen
  /\ world busySys = 1%nat
  /\ fst (Execute (counted None) busySys) = Done None
  /\ world (snd (Execute (counted None) busySys)) = 2%nat
  /\ summary (breaker busySys) = mkCounts 11 7 4
  /\ summary (breaker (snd (Execute (counted None) busySys))) = mkCounts 12 7 5
  /\ snd (Execute (counted None) busySys) <> busySys.
Proof.
  do 6 (split; [vm_compute; reflexivity|]).
  intros H. apply (f_equal world) in H. vm_compute in H. discriminate.
Qed.

(** C3, as the specification has it, fails: the probe that makes the
    default policy answer [Closed] closes the breaker, and the window
    keeps its frames and the summary its counts. *)
Lemma probe_success_keeps_history :
  state (breaker hundredProbesSys) = HalfOpen
  /\ fst (Execute (counted None) hundredProbesSys) = Done None
  /\ state (breaker (snd (Execute (counted None) hundredProbesSys))) = Closed
  /\ rollingWindow (breaker (snd (Execute (counted None) hundredProbesSys)))
     = [zeroCounts; zeroCounts; mkCounts 112 7 105]
  /\ rollingWindow (breaker (snd (Execute (counted None) hundredProbesSys)))
     <> [zeroCounts]
  /\ summary (breaker (snd (Execute (counted None) hundredProbesSys)))
     = mkCounts 112 7 105
  /\ summary (breaker (snd (Execute (counted None) hundredProbesSys)))
     <> zeroCounts.
Proof.
  repeat split; try (vm_compute; reflexivity); vm_compute; discriminate.
Qed.


(** * What the methods leave alone *)

Section Keeps.
Context {W V : Type}.
Variable R : Sys W -> Sys W -> Prop.
Hypothesis R_refl : forall s, R s s.
Hypothesis R_trans : forall s1 s2 s3, R s1 s2 -> R s2 s3 -> R s1 s3.

#[local] Abbreviation M := (M W V).

Lemma keeps_ret {A} (a : A) : keeps R (ret a : M A).
Proof. intros s. apply R_refl. Qed.

Lemma keeps_panic {A} (p : panicValue V) : keeps R (panic p : M A).
Proof. intros s. apply R_refl. Qed.

Lemma keeps_gets {A} (f : CircuitBreaker -> A) : keeps R (gets f : M A).
Proof. intros s. apply R_refl. Qed.

Lemma keeps_bind {A B} (m : M A) (k : A -> M B) :
  keeps R m -> (forall a, keeps R (k a)) -> keeps R (bind m k).
Proof.
  intros Hm Hk s. unfold bind. specialize (Hm s).
  destruct (m s) as [[a|p] s1]; simpl in *.
  - eapply R_trans; [exact Hm|]. apply Hk.
  - exact Hm.
Qed.

Lemma keeps_with_defer {A} (d : M unit) (body : M A) :
  keeps R d -> keeps R body -> keeps R (with_defer d body).
Proof.
  intros Hd Hb s. unfold with_defer. specialize (Hb s).
  destruct (body s) as [r s1]. simpl in Hb. specialize (Hd s1).
  destruct (d s1) as [[u|p] s2]; simpl in *; eapply R_trans; eassumption.
Qed.

Lemma keeps_with_recover {A} (h : panicValue V -> M unit) (zero : A) (body : M A) :
  (forall r, keeps R (h r)) -> keeps R body -> keeps R (with_recover h zero body).
Proof.
  intros Hh Hb s. unfold with_recover. specialize (Hb s).
  destruct (body s) as [[a|r] s1]; simpl in *.
  - exact Hb.
  - specialize (Hh r s1).
    destruct (h r s1) as [[u|p] s2]; simpl in *; eapply R_trans; eassumption.
Qed.

Hypothesis R_window : forall s w, R s (onBreaker (set_window w) s).
Hypothesis R_summary : forall s c, R s (onBreaker (set_summary c) s).

Lemma keeps_set_window (w : list Counts) : keeps R (modify (set_window w) : M unit).
Proof. intros s. apply R_window. Qed.

Lemma keeps_lastFrame : keeps R (lastFrame : M Counts).
Proof.
  apply keeps_bind; [apply keeps_gets|]. intros [|c w].
  - apply keeps_panic.
  - apply keeps_ret.
Qed.

Lemma keeps_assignLastFrame (f : Counts -> Counts) :
  keeps R (assignLastFrame f : M unit).
Proof.
  apply keeps_bind; [apply keeps_gets|]. intros [|c w].
  - apply keeps_panic.
  - apply keeps_set_window.
Qed.

Lemma keeps_assignSummary (f : Counts -> Counts) :
  keeps R (assignSummary f : M unit).
Proof. intros s. apply (R_summary s (f (summary (breaker s)))). Qed.

Lemma keeps_incrSuccess : keeps R (incrSuccess : M unit).
Proof.
  unfold incrSuccess.
  repeat (apply keeps_bind; [|intros _]);
    auto using keeps_assignLastFrame, keeps_assignSummary.
Qed.

Lemma keeps_incrFail : keeps R (incrFail : M unit).
Proof.
  unfold incrFail.
  repeat (apply keeps_bind; [|intros _]);
    auto using keeps_assignLastFrame, keeps_assignSummary.
Qed.

Lemma keeps_decrSummary (decr : Counts) : keeps R (decrSummary decr : M unit).
Proof.
  unfold decrSummary.
  repeat (apply keeps_bind; [|intros _]); auto using keeps_assignSummary.
Qed.

Lemma keeps_addFrame : keeps R (addFrame : M unit).
Proof.
  apply keeps_bind; [apply keeps_gets|]. intros w. apply keeps_set_window.
Qed.

Lemma keeps_unshiftFrame : keeps R (unshiftFrame : M Counts).
Proof.
  apply keeps_with_defer.
  - apply keeps_bind; [apply keeps_gets|]. intros [|c w].
    + apply keeps_panic.
    + apply keeps_set_window.
  - apply keeps_bind; [apply keeps_gets|]. intros [|c w].
    + apply keeps_panic.
    + apply keeps_ret.
Qed.

Lemma keeps_popFrame : keeps R (popFrame : M Counts).
Proof.
  apply keeps_with_defer.
  - apply keeps_bind; [apply keeps_gets|]. intros [|c w].
    + apply keeps_panic.
    + apply keeps_set_window.
  - apply keeps_lastFrame.
Qed.

Lemma keeps_moveWindow : keeps R (moveWindow : M unit).
Proof.
  apply keeps_bind; [apply keeps_unshiftFrame|]. intros frame.
  apply keeps_bind; [apply keeps_decrSummary|]. intros _. apply keeps_addFrame.
Qed.

Lemma keeps_popWindow : keeps R (popWindow : M unit).
Proof.
  apply keeps_bind; [apply keeps_popFrame|]. intros frame. apply keeps_decrSummary.
Qed.

Lemma keeps_aggregateHalfOpenFrame : keeps R (aggregateHalfOpenFrame : M unit).
Proof.
  apply keeps_bind; [apply keeps_popFrame|]. intros frame.
  repeat (apply keeps_bind; [|intros _]); auto using keeps_assignLastFrame.
Qed.

Hypothesis R_state : forall s st, R s (onBreaker (set_state st) s).
Hypothesis R_spawn : forall s, R s (onWaiters spawn s).

Lemma keeps_afterExecute : keeps R (afterExecute : M unit).
Proof.
  apply keeps_bind; [apply keeps_gets|]. intros [| |].
  - apply keeps_bind; [apply keeps_gets|]. intros sm.
    apply keeps_bind; [apply keeps_gets|]. intros [|].
    + apply keeps_bind; [intros s; apply R_state|]. intros _ s. apply R_spawn.
    + apply keeps_ret.
  - apply keeps_bind; [apply keeps_lastFrame|]. intros frame.
    apply keeps_bind; [apply keeps_gets|]. intros [| |].
    + apply keeps_bind; [intros s; apply R_state|]. intros _.
      apply keeps_aggregateHalfOpenFrame.
    + apply keeps_ret.
    + apply keeps_bind; [apply keeps_gets|]. intros [|].
      * apply keeps_ret.
      * apply keeps_bind; [intros s; apply R_spawn|]. intros _.
        apply keeps_bind; [intros s; apply R_state|]. intros _.
        apply keeps_popWindow.
  - apply keeps_ret.
Qed.
End Keeps.

Section KeepsExecute.
Context {W E V : Type}.
Variable R : Sys W -> Sys W -> Prop.
Hypothesis R_refl : forall s, R s s.
Hypothesis R_trans : forall s1 s2 s3, R s1 s2 -> R s2 s3 -> R s1 s3.
Hypothesis R_window : forall s w, R s (onBreaker (set_window w) s).
Hypothesis R_summary : forall s c, R s (onBreaker (set_summary c) s).
Hypothesis R_state : forall s st, R s (onBreaker (set_state st) s).
Hypothesis R_spawn : forall s, R s (onWaiters spawn s).
Hypothesis R_world :
  forall s w, R s (mkSys (breaker s) (waitHalfOpenG s) (renewFrameG s) w).

Lemma keeps_call (fn : circuitCall W E V) : keeps R (call fn).
Proof.
  intros s. unfold call. destruct (fn (world s)) as [[err|v] w']; apply R_world.
Qed.

Lemma keeps_canExecute : keeps R (canExecute (W := W) (E := E) (V := V)).
Proof. intros s. rewrite canExecute_eq. apply R_refl. Qed.

Lemma keeps_Execute (fn : circuitCall W E V) : keeps R (Execute fn).
Proof.
  assert (HF : keeps R (incrFail (W := W) (V := V)))
    by (apply keeps_incrFail; assumption).
  assert (HS : keeps R (incrSuccess (W := W) (V := V)))
    by (apply keeps_incrSuccess; assumption).
  assert (HA : keeps R (afterExecute (W := W) (V := V)))
    by (apply keeps_afterExecute; assumption).
  unfold Execute. apply keeps_with_defer; try assumption.
  apply keeps_bind; try assumption; [apply keeps_canExecute|].
  intros [err|].
  - apply keeps_ret; assumption.
  - apply keeps_with_recover; try assumption.
    + intros r. apply keeps_bind; try assumption.
      intros _. apply keeps_panic; assumption.
    + apply keeps_bind; try assumption; [apply keeps_call|].
      intros [e|]; (apply keeps_bind; try assumption);
        intros _; apply keeps_ret; assumption.
Qed.
End KeepsExecute.

Section Setup.
Context {W E V : Type}.

#[local] Abbreviation Sys := (Sys W).
#[local] Abbreviation action := (@action W E V).

Lemma same_setup_refl (s : Sys) : same_setup s s.
Proof. repeat split. Qed.

Lemma same_setup_trans (s1 s2 s3 : Sys) :
  same_setup s1 s2 -> same_setup s2 s3 -> same_setup s1 s3.
Proof.
  unfold same_setup. intros (A1 & A2 & A3) (B1 & B2 & B3).
  repeat split; congruence.
Qed.

Lemma same_renewer_trans (s1 s2 s3 : Sys) :
  same_renewer s1 s2 -> same_renewer s2 s3 -> same_renewer s1 s3.
Proof. unfold same_renewer. congruence. Qed.

Lemma same_state_trans (s1 s2 s3 : Sys) :
  same_state s1 s2 -> same_state s2 s3 -> same_state s1 s3.
Proof. unfold same_state. congruence. Qed.

Lemma same_setup_step (a : action) (s : Sys) : same_setup s (step a s).
Proof.
  destruct a; simpl.
  - apply (keeps_Execute same_setup same_setup_refl same_setup_trans);
      intros; repeat split.
  - rewrite canExecute_eq. apply same_setup_refl.
  - apply (keeps_call same_setup); intros; repeat split.
  - apply (keeps_incrSuccess same_setup same_setup_refl same_setup_trans);
      intros; repeat split.
  - apply (keeps_incrFail same_setup same_setup_refl same_setup_trans);
      intros; repeat split.
  - apply (keeps_afterExecute same_setup same_setup_refl same_setup_trans);
      intros; repeat split.
  - unfold renewFrame_tick. destruct (renewFrameG s); [|apply same_setup_refl].
    destruct (State_eqb (state (breaker s)) Closed).
    + apply (keeps_moveWindow same_setup same_setup_refl same_setup_trans);
        intros; repeat split.
    + repeat split.
  - unfold waitHalfOpen_store. destruct (spawned (waitHalfOpenG s)); repeat split.
  - unfold waitHalfOpen_fire. destruct (sleeping (waitHalfOpenG s)); repeat split.
  - unfold waitHalfOpen_done. destruct (finishing (waitHalfOpenG s)); repeat split.
Qed.

Lemma renewer_step (a : action) (s : Sys) :
  renewFrameG s = false -> renewFrameG (step a s) = false.
Proof.
  intros Hoff.
  assert (Hk : forall s' : Sys, same_renewer s s' -> renewFrameG s' = false).
  { intros s' Hs. unfold same_renewer in Hs. congruence. }
  destruct a; simpl.
  - apply Hk.
    apply (keeps_Execute same_renewer (fun _ => eq_refl) same_renewer_trans);
      intros; reflexivity.
  - rewrite canExecute_eq. exact Hoff.
  - apply Hk. apply (keeps_call same_renewer); intros; reflexivity.
  - apply Hk.
    apply (keeps_incrSuccess same_renewer (fun _ => eq_refl) same_renewer_trans);
      intros; reflexivity.
  - apply Hk.
    apply (keeps_incrFail same_renewer (fun _ => eq_refl) same_renewer_trans);
      intros; reflexivity.
  - apply Hk.
    apply (keeps_afterExecute same_renewer (fun _ => eq_refl) same_renewer_trans);
      intros; reflexivity.
  - unfold renewFrame_tick. rewrite Hoff. exact Hoff.
  - unfold waitHalfOpen_store. destruct (spawned (waitHalfOpenG s)); exact Hoff.
  - unfold waitHalfOpen_fire. destruct (sleeping (waitHalfOpenG s)); exact Hoff.
  - unfold waitHalfOpen_done. destruct (finishing (waitHalfOpenG s)); exact Hoff.
Qed.

Lemma same_setup_run (trace : list action) (s : Sys) : same_setup s (run trace s).
Proof.
  revert s. induction trace as [|a trace IH]; intros s; simpl.
  - apply same_setup_refl.
  - apply (same_setup_trans s (step a s)); [apply same_setup_step | apply IH].
Qed.

(** X1. Whatever happens to a system, the durations and the two policies
    of its breaker stay the ones it had. *)
Theorem setup_is_fixed (trace : list action) (s : Sys) :
  cfg (breaker (run trace s)) = cfg (breaker s)
  /\ canTrip (breaker (run trace s)) = canTrip (breaker s)
  /\ fromHalfOpenToState (breaker (run trace s)) = fromHalfOpenToState (breaker s).
Proof. exact (same_setup_run trace s). Qed.

(** X2. A round of [renewFrame] that finds the breaker not closed ends the
    rotation of the window for good: the round changes nothing in the
    breaker, and after it, whatever happens, the goroutine is gone and a
    further round leaves the system as it is, also when the breaker is
    closed again. *)
Theorem rotation_ends_outside_Closed (trace : list action) (s : Sys) :
  state (breaker s) <> Closed ->
  breaker (renewFrame_tick (V := V) s) = breaker s
  /\ renewFrameG (run trace (renewFrame_tick (V := V) s)) = false
  /\ renewFrame_tick (V := V) (run trace (renewFrame_tick (V := V) s))
     = run trace (renewFrame_tick (V := V) s).
Proof.
  intros Hst. apply State_eqb_neq in Hst.
  assert (Hoff : renewFrameG (renewFrame_tick (V := V) s) = false).
  { unfold renewFrame_tick. destruct (renewFrameG s) eqn:Hr; [|exact Hr].
    rewrite Hst. reflexivity. }
  assert (Hrun : forall (t : list action) (s0 : Sys),
             renewFrameG s0 = false -> renewFrameG (run t s0) = false).
  { induction t as [|a t IH]; intros s0 H0; simpl; [exact H0|].
    apply IH. now apply renewer_step. }
  split; [|split].
  - unfold renewFrame_tick. destruct (renewFrameG s); [|reflexivity].
    rewrite Hst. reflexivity.
  - now apply Hrun.
  - unfold renewFrame_tick at 1. now rewrite (Hrun trace _ Hoff).
Qed.

(** X3. Only the timer of the recovery goroutine takes the breaker out of
    [Open]: every other step leaves it open. *)
Theorem Open_left_only_by_timer (a : action) (s : Sys) :
  state (breaker s) = Open ->
  a <> ActWaitFire ->
  state (breaker (step a s)) = Open.
Proof.
  intros Hst Ha.
  assert (Hk : forall s' : Sys, same_state s s' -> state (breaker s') = Open).
  { intros s' Hs. unfold same_state in Hs. congruence. }
  destruct a; simpl.
  - now rewrite (Execute_Open fn s Hst).
  - rewrite canExecute_eq. exact Hst.
  - apply Hk. apply (keeps_call same_state); intros; reflexivity.
  - apply Hk.
    apply (keeps_incrSuccess same_state (fun _ => eq_refl) same_state_trans);
      intros; reflexivity.
  - apply Hk.
    apply (keeps_incrFail same_state (fun _ => eq_refl) same_state_trans);
      intros; reflexivity.
  - now rewrite (afterExecute_Open s Hst).
  - unfold renewFrame_tick. destruct (renewFrameG s); [|exact Hst].
    rewrite Hst. simpl. exact Hst.
  - unfold waitHalfOpen_store. destruct (spawned (waitHalfOpenG s)); exact Hst.
  - congruence.
  - unfold waitHalfOpen_done. destruct (finishing (waitHalfOpenG s)); exact Hst.
Qed.
End Setup.

(** * More on reachable states *)

Section Cycle.
Context {W E V : Type}.

#[local] Abbreviation Sys := (Sys W).
#[local] Abbreviation action := (@action W E V).


(** X5. An open breaker that was constructed and run has its recovery
    goroutine pending: letting that goroutine run to its timer makes the
    breaker half-open, with one empty frame more at the end of the window
    and the summary as it was. *)
Theorem Open_recovers (opts : list option_) (cb : CircuitBreaker) (w : W)
        (trace : list action) :
  Forall is_With opts -> New opts = inl cb ->
  state (breaker (run trace (boot cb w))) = Open ->
  let s := run trace (boot cb w) in
  let s' := run [ActWaitStore; ActWaitFire : action] s in
  state (breaker s') = HalfOpen
  /\ rollingWindow (breaker s') = rollingWindow (breaker s) ++ [zeroCounts]
  /\ summary (breaker s') = summary (breaker s).
Proof.
  intros Hall Hnew Hst s s'.
  destruct (Inv_reachable opts cb w trace Hall Hnew) as [_ HI]. fold s in HI, Hst.
  pose proof (inv_armed _ _ HI) as Ha. rewrite Hst in Ha.
  unfold armed, isOpen in Ha. simpl in Ha.
  subst s'. simpl. unfold waitHalfOpen_store.
  destruct (spawned (waitHalfOpenG s)) as [|k] eqn:Hk.
  - unfold waitHalfOpen_fire.
    destruct (sleeping (waitHalfOpenG s)) as [|j] eqn:Hj; [simpl in Ha; lia|].
    simpl. auto.
  - unfold waitHalfOpen_fire. simpl. auto.
Qed.

Lemma sumBy_in_range (f : Counts -> Z) (l : list Counts) :
  U64.in_range (sumBy f l).
Proof. rewrite <- sumBy_wrap. apply wrap_in_range. Qed.

(** X6. A failed probe undoes the recovery: when the policy answers
    [Open] for a frame with one failure, an operation that fails or
    panics on the freshly half-open breaker opens it again, hands back
    its own error or panic, and leaves the window and the summary exactly
    as they were when the breaker was open; one recovery goroutine is
    pending again. *)
Theorem failed_probe_restores (opts : list option_) (cb : CircuitBreaker) (w : W)
        (trace : list action) (fn : circuitCall W E V)
        (r : callResult E V) (w' : W) :
  Forall is_With opts -> New opts = inl cb ->
  let s := run trace (boot cb w) in
  let h := run [ActWaitStore; ActWaitFire; ActWaitDone : action] s in
  state (breaker s) = Open ->
  fromHalfOpenToState (breaker s) (bumpFail zeroCounts) = Open ->
  fn (world h) = (r, w') ->
  r <> Returns None ->
  fst (Execute fn h) = handedBack r
  /\ state (breaker (snd (Execute fn h))) = Open
  /\ rollingWindow (breaker (snd (Execute fn h))) = rollingWindow (breaker s)
  /\ summary (breaker (snd (Execute fn h))) = summary (breaker s)
  /\ armed (waitHalfOpenG (snd (Execute fn h))) = 1%nat.
Proof.
  intros Hall Hnew s h Hst Hpol Hfn Hr.
  destruct (Inv_reachable opts cb w trace Hall Hnew) as [_ HI]. fold s in HI.
  destruct (Inv_reachable opts cb w (trace ++ [ActWaitStore; ActWaitFire; ActWaitDone])
              Hall Hnew) as [_ HIh].
  rewrite run_app in HIh. fold s in HIh. fold h in HIh.
  pose proof (inv_armed _ _ HI) as Ha. rewrite Hst in Ha.
  unfold armed, isOpen in Ha. simpl in Ha.
  destruct HI as [_ _ [Hs [Hs' Hs'']] _ _ _].
  assert (Hh : state (breaker h) = HalfOpen
               /\ rollingWindow (breaker h) = rollingWindow (breaker s) ++ [zeroCounts]
               /\ summary (breaker h) = summary (breaker s)
               /\ onHalfOpenTimeout (breaker h) = false
               /\ fromHalfOpenToState (breaker h) = fromHalfOpenToState (breaker s)
               /\ armed (waitHalfOpenG h) = 0%nat).
  { subst h. simpl. unfold waitHalfOpen_store.
    destruct (spawned (waitHalfOpenG s)) as [|k] eqn:Hk.
    - unfold waitHalfOpen_fire.
      destruct (sleeping (waitHalfOpenG s)) as [|j] eqn:Hj; [simpl in Ha; lia|].
      simpl in Ha. assert (j = 0%nat) by lia. subst j.
      unfold armed. simpl. rewrite Hk. repeat split; reflexivity.
    - assert (Hk0 : k = 0%nat /\ sleeping (waitHalfOpenG s) = 0%nat) by lia.
      destruct Hk0 as [-> Hsl].
      unfold waitHalfOpen_fire, armed. simpl. rewrite Hsl. repeat split; reflexivity. }
  destruct Hh as (Hh1 & Hh2 & Hh3 & Hh4 & Hh5 & Hh6).
  assert (Hb : bumpFor r = bumpFail).
  { destruct r as [[e|]|v]; try reflexivity. congruence. }
  rewrite (Execute_admitted_result fn h (rollingWindow (breaker s)) zeroCounts r w');
    [|congruence| |exact Hh2|exact Hfn].
  2: { intros _. rewrite Hh2, length_app. simpl.
       pose proof (inv_length _ _ HIh) as Hl. pose proof (inv_frames _ _ HIh).
       rewrite Hh1, Hh2, length_app in Hl. unfold isHalfOpen in Hl. simpl in Hl. lia. }
  rewrite Hb.
  erewrite afterExecute_HalfOpen_Open;
    [| exact Hh1 | reflexivity | simpl; rewrite Hh5; exact Hpol | exact Hh4].
  simpl. rewrite Hh3. split; [reflexivity|]. split; [reflexivity|].
  split; [reflexivity|]. split.
  - destruct (summary (breaker s)) as [t f sc]. simpl in *.
    unfold subCounts, bumpFail. simpl. f_equal.
    + rewrite <- (wrap_small t) at 2 by (rewrite Hs; apply sumBy_in_range). u64.
    + rewrite <- (wrap_small f) at 2 by (rewrite Hs'; apply sumBy_in_range). u64.
    + rewrite <- (wrap_small sc) at 2 by (rewrite Hs''; apply sumBy_in_range). u64.
  - unfold armed in *. simpl. lia.
Qed.

Lemma tick_Closed (s : Sys) (frame : Counts) (rest : list Counts) :
  state (breaker s) = Closed -> renewFrameG s = true ->
  rollingWindow (breaker s) = frame :: rest ->
  let s' := renewFrame_tick (V := V) s in
  state (breaker s') = Closed /\ renewFrameG s' = true
  /\ rollingWindow (breaker s') = rest ++ [zeroCounts].
Proof.
  intros Hst Hr Hw. unfold renewFrame_tick. rewrite Hr, Hst. simpl.
  rewrite (moveWindow_cons s frame rest Hw). simpl. auto.
Qed.

Lemma ticks_shift (k : nat) (s : Sys) :
  state (breaker s) = Closed -> renewFrameG s = true ->
  (k <= length (rollingWindow (breaker s)))%nat ->
  let s' := run (repeat (ActRenewFrame : action) k) s in
  state (breaker s') = Closed
  /\ rollingWindow (breaker s')
     = skipn k (rollingWindow (breaker s)) ++ repeat zeroCounts k.
Proof.
  revert s. induction k as [|k IH]; intros s Hst Hr Hk; simpl.
  - rewrite app_nil_r. auto.
  - destruct (rollingWindow (breaker s)) as [|frame rest] eqn:Hw; [simpl in Hk; lia|].
    destruct (tick_Closed s frame rest Hst Hr Hw) as (H1 & H2 & H3).
    simpl in Hk.
    destruct (IH (renewFrame_tick s) H1 H2) as (H4 & H5).
    { rewrite H3, length_app. simpl. lia. }
    split; [exact H4|]. rewrite H5, H3.
    rewrite skipn_app. replace (k - length rest)%nat with 0%nat by lia.
    simpl. rewrite <- app_assoc. reflexivity.
Qed.

(** X7. A closed breaker left idle forgets: after as many rounds of
    [renewFrame] as the window has frames, with no call in between, every
    frame is empty and the summary is zero. *)
Theorem idle_window_empties (opts : list option_) (cb : CircuitBreaker) (w : W)
        (trace : list action) :
  Forall is_With opts -> New opts = inl cb ->
  let s := run trace (boot cb w) in
  let n := length (rollingWindow (breaker s)) in
  state (breaker s) = Closed ->
  renewFrameG s = true ->
  let s' := run (repeat (ActRenewFrame : action) n) s in
  state (breaker s') = Closed
  /\ rollingWindow (breaker s') = repeat zeroCounts n
  /\ summary (breaker s') = zeroCounts.
Proof.
  intros Hall Hnew s n Hst Hr s'.
  destruct (ticks_shift n s Hst Hr (le_n _)) as (H1 & H2). fold s' in H1, H2.
  unfold n in H2 at 1. rewrite skipn_all in H2. simpl in H2.
  destruct (Inv_reachable opts cb w (trace ++ repeat ActRenewFrame n) Hall Hnew)
    as [_ HI].
  rewrite run_app in HI. fold s in HI. fold s' in HI.
  destruct HI as [_ _ [Hs [Hs' Hs'']] _ _ _]. rewrite H2 in Hs, Hs', Hs''.
  rewrite sumBy_repeat_zero in Hs, Hs', Hs'' by reflexivity.
  split; [exact H1|]. split; [exact H2|].
  destruct (summary (breaker s')) as [t f sc]. simpl in *. now subst.
Qed.
End Cycle.

(** * Rows of calls *)

Section Rows.
Context {W E V : Type}.

#[local] Abbreviation Sys := (Sys W).
#[local] Abbreviation action := (@action W E V).

Lemma tally_Total (calls : list (option (error E))) (c : Counts) :
  U64.wrap (Total (tally calls c)) = U64.wrap (Total c + Z.of_nat (length calls)).
Proof.
  revert c. induction calls as [|err calls IH]; intros c.
  - simpl. f_equal. lia.
  - change (tally (err :: calls) c) with (tally calls (bumpOf err c)).
    rewrite IH. simpl length. rewrite Nat2Z.inj_succ.
    destruct err; simpl; u64.
Qed.

(** X8. With a trip policy that never trips, a closed breaker admits
    every call of a row and counts it: it stays closed, its summary is
    the old one with one success or failure more per call, and [Total]
    has grown by the number of calls, modulo [2^64]. *)
Theorem untripped_calls_are_counted (calls : list (option (error E))) (s : Sys) :
  state (breaker s) = Closed ->
  rollingWindow (breaker s) <> [] ->
  (forall c, canTrip (breaker s) c = false) ->
  let s' := run (syncFeedCircuitBreakerHelper (V := V) calls) s in
  state (breaker s') = Closed
  /\ summary (breaker s') = tally calls (summary (breaker s))
  /\ U64.wrap (Total (summary (breaker s')))
     = U64.wrap (Total (summary (breaker s)) + Z.of_nat (length calls)).
Proof.
  intros Hst Hne Hno s'.
  destruct (feed_stays_Closed (V := V) calls s Hst Hne) as (H1 & H2 & _ & _).
  { intros k _. apply Hno. }
  fold s' in H1, H2. split; [exact H1|]. split; [exact H2|].
  rewrite H2. apply tally_Total.
Qed.

(** One successful call on a half-open breaker whose policy keeps it
    half-open. *)
Lemma success_HalfOpen_stays (s : Sys) (init : list Counts) (x : Counts) :
  state (breaker s) = HalfOpen ->
  rollingWindow (breaker s) = init ++ [x] ->
  fromHalfOpenToState (breaker s) (bumpSuccess x) = HalfOpen ->
  let s' := step (ActExecute (E := E) (V := V) (fixtureCircuitCall None)) s in
  state (breaker s') = HalfOpen
  /\ rollingWindow (breaker s') = init ++ [bumpSuccess x]
  /\ fromHalfOpenToState (breaker s') = fromHalfOpenToState (breaker s).
Proof.
  intros Hst Hw Hp. unfold step.
  rewrite (Execute_admitted (fixtureCircuitCall None) s init x (Returns None) (world s));
    [|congruence|exact Hw|reflexivity].
  unfold with_defer.
  erewrite afterExecute_HalfOpen_stay; [|exact Hst|reflexivity|exact Hp].
  simpl. auto.
Qed.

Lemma successes_HalfOpen_stay (k : nat) (s : Sys) (init : list Counts) (x : Counts) :
  state (breaker s) = HalfOpen ->
  rollingWindow (breaker s) = init ++ [x] ->
  (forall j, (0 < j <= k)%nat ->
     fromHalfOpenToState (breaker s) (Nat.iter j bumpSuccess x) = HalfOpen) ->
  let s' := run (syncFeedCircuitBreakerHelper (E := E) (V := V) (repeat None k)) s in
  state (breaker s') = HalfOpen
  /\ rollingWindow (breaker s') = init ++ [Nat.iter k bumpSuccess x]
  /\ fromHalfOpenToState (breaker s') = fromHalfOpenToState (breaker s).
Proof.
  revert s x. induction k as [|k IH]; intros s x Hst Hw Hp; simpl.
  - auto.
  - destruct (success_HalfOpen_stays s init x Hst Hw) as (H1 & H2 & H3).
    { apply (Hp 1%nat). lia. }
    simpl in H1, H2, H3.
    destruct (IH _ (bumpSuccess x) H1 H2) as (H4 & H5 & H6).
    { intros j Hj. rewrite H3.
      replace (Nat.iter j bumpSuccess (bumpSuccess x))
        with (Nat.iter (S j) bumpSuccess x).
      - apply Hp. lia.
      - clear. induction j as [|j IHj]; simpl; [reflexivity|]. now rewrite <- IHj. }
    fold (syncFeedCircuitBreakerHelper (W := W) (E := E) (V := V) (repeat None k)).
    split; [exact H4|]. split; [|congruence].
    rewrite H5. f_equal. f_equal.
    clear. induction k as [|k IHk]; simpl; [reflexivity|]. now rewrite IHk.
Qed.

(** One successful call on a half-open breaker whose policy closes it. *)
Lemma fixture_probe_closes (s : Sys) (init : list Counts) (prev x : Counts) :
  state (breaker s) = HalfOpen ->
  rollingWindow (breaker s) = (init ++ [prev]) ++ [x] ->
  fromHalfOpenToState (breaker s) (bumpSuccess x) = Closed ->
  let s' := run (syncFeedCircuitBreakerHelper (E := E) (V := V) [None]) s in
  state (breaker s') = Closed
  /\ rollingWindow (breaker s') = init ++ [addCounts prev (bumpSuccess x)].
Proof.
  intros Hst Hw Hp.
  change (run (syncFeedCircuitBreakerHelper [None]) s)
    with (snd (Execute (E := E) (V := V) (fixtureCircuitCall None) s)).
  rewrite (Execute_admitted (fixtureCircuitCall None) s (init ++ [prev]) x
             (Returns None) (world s)); [|congruence|exact Hw|reflexivity].
  unfold with_defer.
  rewrite (afterExecute_HalfOpen_Closed _ init prev (bumpSuccess x));
    [|exact Hst|reflexivity|exact Hp].
  simpl. auto.
Qed.

Lemma iter_bumpSuccess_zero (k : nat) :
  (k <= 101)%nat ->
  Nat.iter k bumpSuccess zeroCounts = mkCounts (Z.of_nat k) 0 (Z.of_nat k).
Proof.
  induction k as [|k IH]; intros Hk.
  - reflexivity.
  - simpl Nat.iter. rewrite IH by lia. unfold bumpSuccess. simpl Total. simpl Success.
    simpl Fail. rewrite Nat2Z.inj_succ.
    assert (Hs : U64.add (Z.of_nat k) 1 = Z.succ (Z.of_nat k)).
    { unfold U64.add, U64.wrap, U64.modulus. apply Z.mod_small. lia. }
    now rewrite Hs.
Qed.

(** X9. With the default half-open policy, a half-open breaker whose
    newest frame is empty stays half-open through a hundred successful
    calls in a row and closes on the next one. *)
Theorem default_closes_on_101st (s : Sys) (init : list Counts) (prev : Counts) :
  state (breaker s) = HalfOpen ->
  rollingWindow (breaker s) = (init ++ [prev]) ++ [zeroCounts] ->
  fromHalfOpenToState (breaker s) = defaultFromHalfOpenToState ->
  (forall k, (k <= 100)%nat ->
     state (breaker (run (syncFeedCircuitBreakerHelper (E := E) (V := V)
                            (repeat None k)) s)) = HalfOpen)
  /\ state (breaker (run (syncFeedCircuitBreakerHelper (E := E) (V := V)
                            (repeat None 101)) s)) = Closed.
Proof.
  intros Hst Hw Hpol.
  assert (Hstay : forall k, (k <= 100)%nat ->
            let s' := run (syncFeedCircuitBreakerHelper (E := E) (V := V)
                             (repeat None k)) s in
            state (breaker s') = HalfOpen
            /\ rollingWindow (breaker s')
               = (init ++ [prev]) ++ [mkCounts (Z.of_nat k) 0 (Z.of_nat k)]
            /\ fromHalfOpenToState (breaker s') = defaultFromHalfOpenToState).
  { intros k Hk.
    destruct (successes_HalfOpen_stay k s _ zeroCounts Hst Hw) as (H1 & H2 & H3).
    - intros j Hj. rewrite Hpol, iter_bumpSuccess_zero by lia.
      unfold defaultFromHalfOpenToState. simpl.
      destruct (Z.ltb_spec 100 (Z.of_nat j)); [lia|]. reflexivity.
    - cbv zeta. rewrite H1, H2, H3, iter_bumpSuccess_zero by lia. auto. }
  split.
  - intros k Hk. apply (Hstay k Hk).
  - destruct (Hstay 100%nat (le_n _)) as (H1 & H2 & H3). cbv zeta in H1, H2, H3.
    assert (Hsplit : repeat (@None (error E)) 101 = repeat None 100 ++ [None])
      by (vm_compute; reflexivity).
    rewrite Hsplit.
    unfold syncFeedCircuitBreakerHelper at 1. rewrite map_app, run_app.
    fold (syncFeedCircuitBreakerHelper (W := W) (E := E) (V := V) (repeat None 100)).
    remember (run (syncFeedCircuitBreakerHelper (repeat None 100)) s) as s100 eqn:Hs.
    assert (H101 : bumpSuccess (mkCounts (Z.of_nat 100) 0 (Z.of_nat 100))
                   = mkCounts 101 0 101) by (vm_compute; reflexivity).
    assert (Hpol101 : defaultFromHalfOpenToState (mkCounts 101 0 101) = Closed)
      by (vm_compute; reflexivity).
    destruct (fixture_probe_closes s100 init prev _ H1 H2) as (H4 & _).
    { rewrite H3, H101. exact Hpol101. }
    exact H4.
Qed.
End Rows.

(** * More on construction *)

Lemma invalid_With_rejects (o : option_) (cbOpts : optionsConfiguration) :
  invalid_With o -> exists msg, o cbOpts = inr msg.
Proof.
  intros [(k & Hk & ->)|[(k & Hk & ->)|[(k & Hk & ->)|[->| ->]]]].
  - unfold WithWindowFrameThreshold. destruct (Z.leb_spec k 0); [eauto|lia].
  - unfold WithWindowRollThreshold. destruct (Z.leb_spec k 0); [eauto|lia].
  - unfold WithHalfOpenThreshold. destruct (Z.leb_spec k 0); [eauto|lia].
  - simpl. eauto.
  - simpl. eauto.
Qed.

Lemma applyOptions_rejects (opts : list option_) (cbOpts : optionsConfiguration) :
  Exists invalid_With opts -> exists msg, applyOptions opts cbOpts = inr msg.
Proof.
  intros Hex. revert cbOpts.
  induction Hex as [o opts Ho|o opts _ IH]; intros cbOpts; simpl.
  - destruct (invalid_With_rejects o cbOpts Ho) as [msg ->]. eauto.
  - destruct (o cbOpts) as [c1|msg]; [apply IH|eauto].
Qed.

(** X10. [New] returns the construction error, and no breaker, as soon
    as one of its options is a threshold that is not positive or a [nil]
    callback, wherever that option stands among the others. *)
Theorem New_rejects_invalid_option (opts : list option_) :
  Exists invalid_With opts ->
  exists cause, New opts = inr (ErrNewCircuitBreaker cause).
Proof.
  intros Hex. unfold New.
  destruct (applyOptions_rejects opts defaultOptions Hex) as [msg ->]. eauto.
Qed.


Lemma seconds_fit (n : Z) :
  0 <= n <= maxSeconds -> I64.mul time_Second n = 1000000000 * n.
Proof.
  unfold maxSeconds, I64.mul, I64.wrap, I64.half, time_Second. intros Hn.
  rewrite Z.mod_small; lia.
Qed.

(** X12. [New] stores each threshold as that many nanoseconds times
    [10^9] as long as the threshold is at most 9223372036 seconds; the
    next value already overflows [time.Duration] and is stored as a
    negative duration. *)
Theorem New_durations (opts : list option_) (cbOpts : optionsConfiguration)
        (cb : CircuitBreaker) :
  applyOptions opts defaultOptions = inl cbOpts ->
  New opts = inl cb ->
  (0 <= opt_windowRoll cbOpts <= maxSeconds ->
   windowRoll (cfg cb) = 1000000000 * opt_windowRoll cbOpts)
  /\ (0 <= opt_windowFrame cbOpts <= maxSeconds ->
      windowFrame (cfg cb) = 1000000000 * opt_windowFrame cbOpts)
  /\ (0 <= opt_halfOpenThreshold cbOpts <= maxSeconds ->
      halfOpenTimeout (cfg cb) = 1000000000 * opt_halfOpenThreshold cbOpts)
  /\ I64.mul time_Second (maxSeconds + 1) < 0.
Proof.
  intros Happ Hnew. unfold New in Hnew. rewrite Happ in Hnew.
  destruct (opt_windowFrame cbOpts >? opt_windowRoll cbOpts); [discriminate|].
  injection Hnew as <-. cbn [cfg windowRoll windowFrame halfOpenTimeout].
  repeat split; try apply seconds_fit.
Qed.

(** * The default trip policy and the exact ratio *)

Lemma agree_upto_sound (n total fail : nat) :
  agree_upto n = true -> (total <= n)%nat -> (fail <= total)%nat ->
  agree_at total fail = true.
Proof.
  unfold agree_upto. intros Hall Ht Hf.
  rewrite forallb_forall in Hall.
  specialize (Hall total). rewrite in_seq in Hall.
  specialize (Hall ltac:(lia)). rewrite forallb_forall in Hall.
  apply Hall. rewrite in_seq. lia.
Qed.

Lemma agree_upto_100 : agree_upto 100 = true.
Proof. vm_compute. reflexivity. Qed.

(** X13. On every summary with at most 100 calls, of which any number
    failed, the default trip policy, computed in [float64], answers as
    the exact rule does: more than ten calls, and failures at least 60
    percent of them. *)
Theorem defaultCanTrip_exact (summary : Counts) :
  0 <= Fail summary <= Total summary ->
  Total summary <= 100 ->
  defaultCanTrip summary = exactCanTrip summary.
Proof.
  intros Hf Ht.
  pose proof (agree_upto_sound 100 (Z.to_nat (Total summary)) (Z.to_nat (Fail summary))
                agree_upto_100 ltac:(lia) ltac:(lia)) as H.
  unfold agree_at in H. rewrite !Z2Nat.id in H by lia.
  apply Bool.eqb_prop in H. exact H.
Qed.

(** * Windows too short *)

Section Short.
Context {W V : Type}.

#[local] Abbreviation Sys := (Sys W).

Lemma popFrame_nil (s : Sys) :
  rollingWindow (breaker s) = [] ->
  @popFrame W V s = (Panicking SliceBoundsOutOfRange, s).
Proof.
  intros Hw. unfold popFrame, with_defer. rewrite (lastFrame_nil s Hw).
  unfold bind, gets. rewrite Hw. reflexivity.
Qed.

(** X14. On an empty window the counting methods panic before they
    change anything: [incrSuccess] and [incrFail] with an index out of
    range, [moveWindow], [popWindow] and [aggregateHalfOpenFrame] with
    slice bounds out of range. On a window of one frame
    [aggregateHalfOpenFrame] takes the frame off and then panics: the
    window is left empty and the summary as it was. *)
Theorem short_window_panics (s : Sys) :
  (rollingWindow (breaker s) = [] ->
   @incrSuccess W V s = (Panicking IndexOutOfRange, s)
   /\ @incrFail W V s = (Panicking IndexOutOfRange, s)
   /\ @moveWindow W V s = (Panicking SliceBoundsOutOfRange, s)
   /\ @popWindow W V s = (Panicking SliceBoundsOutOfRange, s)
   /\ @aggregateHalfOpenFrame W V s = (Panicking SliceBoundsOutOfRange, s))
  /\ (forall x, rollingWindow (breaker s) = [x] ->
      @aggregateHalfOpenFrame W V s
      = (Panicking IndexOutOfRange, onBreaker (set_window []) s)).
Proof.
  split.
  - intros Hw. repeat split.
    + now apply incrSuccess_nil.
    + now apply incrFail_nil.
    + now apply moveWindow_nil.
    + unfold popWindow, bind. now rewrite (popFrame_nil s Hw).
    + unfold aggregateHalfOpenFrame, bind. now rewrite (popFrame_nil s Hw).
  - intros x Hw. unfold aggregateHalfOpenFrame, bind.
    rewrite (popFrame_snoc s [] x Hw).
    erewrite assignLastFrame_nil by reflexivity. reflexivity.
Qed.
End Short.

(** * The trip policy of [stateControler] *)

(** X15. The trip policy of [stateControler] panics on a summary
    without calls, and on a summary with calls it answers [false]
    whenever the failures are no more than the calls: its integer ratio is
    then at most one, never sixty. *)
Theorem stateControler_never_trips (summary : Counts) :
  (Total summary = 0 -> StateControler.defaultCanTrip summary = None)
  /\ (0 < Total summary -> 0 <= Fail summary <= Total summary ->
      StateControler.defaultCanTrip summary = Some false).
Proof.
  unfold StateControler.defaultCanTrip. split.
  - intros ->. reflexivity.
  - intros Ht Hf. destruct (Z.eqb_spec (Total summary) 0); [lia|].
    assert (Hq : Fail summary / Total summary <= 1).
    { apply Z.div_le_upper_bound; lia. }
    destruct (Z.leb_spec 60 (Fail summary / Total summary)); [lia|reflexivity].
Qed.

(** * The further statements at work *)

Lemma rotation_ends_outside_Closed_witness :
  state (breaker openSys) <> Closed
  /\ renewFrameG (run (recovery ++ [ActRenewFrame])
                      (renewFrame_tick (V := string) openSys)) = false.
Proof.
  assert (H : state (breaker openSys) <> Closed) by (vm_compute; discriminate).
  split; [exact H|].
  apply (rotation_ends_outside_Closed (recovery ++ [ActRenewFrame]) openSys H).
Defined.

Lemma Open_left_only_by_timer_witness :
  state (breaker openSys) = Open
  /\ ActIncrFail <> @ActWaitFire nat string string
  /\ state (breaker (step (@ActIncrFail nat string string) openSys)) = Open.
Proof.
  assert (H1 : state (breaker openSys) = Open) by (vm_compute; reflexivity).
  assert (H2 : ActIncrFail <> @ActWaitFire nat string string) by discriminate.
  split; [exact H1|]. split; [exact H2|].
  apply (Open_left_only_by_timer ActIncrFail openSys H1 H2).
Defined.


Lemma Open_recovers_witness :
  Forall is_With smallOptions
  /\ New smallOptions = inl smallBreaker
  /\ state (breaker (run closedCalls (boot smallBreaker 0%nat))) = Open
  /\ state (breaker (run toTimer
                         (run closedCalls (boot smallBreaker 0%nat)))) = HalfOpen.
Proof.
  assert (H3 : state (breaker (run closedCalls (boot smallBreaker 0%nat))) = Open)
    by (vm_compute; reflexivity).
  split; [prove_With|]. split; [reflexivity|]. split; [exact H3|].
  apply (Open_recovers smallOptions smallBreaker 0%nat closedCalls);
    [prove_With | reflexivity | exact H3].
Defined.

Lemma failed_probe_restores_witness :
  Forall is_With smallOptions
  /\ New smallOptions = inl smallBreaker
  /\ state (breaker (run closedCalls (boot smallBreaker 0%nat))) = Open
  /\ fromHalfOpenToState (breaker (run closedCalls (boot smallBreaker 0%nat)))
       (bumpFail zeroCounts) = Open
  /\ counted (Some errCall)
       (world (run recovery
                   (run closedCalls (boot smallBreaker 0%nat))))
     = (Returns (Some errCall), 1%nat)
  /\ Returns (Some errCall) <> @Returns string string None
  /\ summary (breaker (snd (Execute (counted (Some errCall))
                              (run recovery
                                   (run closedCalls (boot smallBreaker 0%nat))))))
     = summary (breaker (run closedCalls (boot smallBreaker 0%nat))).
Proof.
  assert (H3 : state (breaker (run closedCalls (boot smallBreaker 0%nat))) = Open)
    by (vm_compute; reflexivity).
  assert (H4 : fromHalfOpenToState (breaker (run closedCalls (boot smallBreaker 0%nat)))
                 (bumpFail zeroCounts) = Open) by (vm_compute; reflexivity).
  assert (H5 : counted (Some errCall)
                 (world (run recovery
                             (run closedCalls (boot smallBreaker 0%nat))))
               = (Returns (Some errCall), 1%nat)) by (vm_compute; reflexivity).
  assert (H6 : Returns (Some errCall) <> @Returns string string None) by discriminate.
  split; [prove_With|]. split; [reflexivity|]. split; [exact H3|].
  split; [exact H4|]. split; [exact H5|]. split; [exact H6|].
  apply (failed_probe_restores smallOptions smallBreaker 0%nat closedCalls
           (counted (Some errCall)) (Returns (Some errCall)) 1%nat
           ltac:(prove_With) eq_refl H3 H4 H5 H6).
Defined.

Lemma idle_window_empties_witness :
  Forall is_With smallOptions
  /\ New smallOptions = inl smallBreaker
  /\ state (breaker usedSys) = Closed
  /\ renewFrameG usedSys = true
  /\ summary (breaker usedSys) = mkCounts 2 1 1
  /\ summary (breaker (run (rounds (length (rollingWindow (breaker usedSys))))
                            usedSys))
     = zeroCounts.
Proof.
  assert (H3 : state (breaker usedSys) = Closed) by (vm_compute; reflexivity).
  assert (H4 : renewFrameG usedSys = true) by (vm_compute; reflexivity).
  split; [prove_With|]. split; [reflexivity|]. split; [exact H3|].
  split; [exact H4|]. split; [vm_compute; reflexivity|].
  exact (proj2 (proj2 (idle_window_empties smallOptions smallBreaker 0%nat
           [ActExecute (counted None); ActExecute (counted (Some errCall))]
           ltac:(prove_With) eq_refl H3 H4))).
Defined.

Lemma untripped_calls_are_counted_witness :
  state (breaker calmSys) = Closed
  /\ rollingWindow (breaker calmSys) <> []
  /\ (forall c, canTrip (breaker calmSys) c = false)
  /\ state (breaker (run (syncFeedCircuitBreakerHelper (V := string)
                            (sevenThenFour "execute error"%string)) calmSys))
     = Closed.
Proof.
  assert (H2 : rollingWindow (breaker calmSys) <> []) by (vm_compute; discriminate).
  assert (H3 : forall c, canTrip (breaker calmSys) c = false) by reflexivity.
  split; [reflexivity|]. split; [exact H2|]. split; [exact H3|].
  apply (untripped_calls_are_counted (V := string)
           (sevenThenFour "execute error"%string) calmSys eq_refl H2 H3).
Defined.

Lemma default_closes_on_101st_witness :
  state (breaker halfOpenSys) = HalfOpen
  /\ rollingWindow (breaker halfOpenSys)
     = (repeat zeroCounts 2 ++ [mkCounts 11 7 4]) ++ [zeroCounts]
  /\ fromHalfOpenToState (breaker halfOpenSys) = defaultFromHalfOpenToState
  /\ state (breaker (run (syncFeedCircuitBreakerHelper (E := string) (V := string)
                            (repeat None 101)) halfOpenSys)) = Closed.
Proof.
  assert (H1 : state (breaker halfOpenSys) = HalfOpen) by (vm_compute; reflexivity).
  assert (H2 : rollingWindow (breaker halfOpenSys)
               = (repeat zeroCounts 2 ++ [mkCounts 11 7 4]) ++ [zeroCounts])
    by (vm_compute; reflexivity).
  assert (H3 : fromHalfOpenToState (breaker halfOpenSys) = defaultFromHalfOpenToState)
    by exact (proj2 (proj2 (same_setup_run (closedCalls ++ recovery)
                              (boot smallBreaker 0%nat)))).
  split; [exact H1|]. split; [exact H2|]. split; [exact H3|].
  exact (proj2 (default_closes_on_101st (E := string) (V := string) halfOpenSys
                  (repeat zeroCounts 2) (mkCounts 11 7 4) H1 H2 H3)).
Defined.

Lemma New_rejects_invalid_option_witness :
  Exists invalid_With badOptions
  /\ exists cause, New badOptions = inr (ErrNewCircuitBreaker cause).
Proof.
  assert (H : Exists invalid_With badOptions).
  { apply Exists_cons_tl. apply Exists_cons_hd.
    right; right; left. exists (-1000). split; [lia|reflexivity]. }
  split; [exact H|]. apply (New_rejects_invalid_option badOptions H).
Defined.


Lemma New_durations_witness :
  applyOptions oddOptions defaultOptions
  = inl (mkOptions 222 4759 21 defaultFromHalfOpenToState defaultCanTrip)
  /\ New oddOptions = inl oddBreaker
  /\ 0 <= 4759 <= maxSeconds
  /\ windowRoll (cfg oddBreaker) = 1000000000 * 4759.
Proof.
  assert (H3 : 0 <= 4759 <= maxSeconds) by (unfold maxSeconds; lia).
  split; [reflexivity|]. split; [reflexivity|]. split; [exact H3|].
  apply (New_durations oddOptions
           (mkOptions 222 4759 21 defaultFromHalfOpenToState defaultCanTrip)
           oddBreaker eq_refl eq_refl).
  exact H3.
Defined.

Lemma defaultCanTrip_exact_witness :
  0 <= Fail (mkCounts 20 12 8) <= Total (mkCounts 20 12 8)
  /\ Total (mkCounts 20 12 8) <= 100
  /\ defaultCanTrip (mkCounts 20 12 8) = exactCanTrip (mkCounts 20 12 8).
Proof.
  assert (H1 : 0 <= Fail (mkCounts 20 12 8) <= Total (mkCounts 20 12 8))
    by (simpl; lia).
  assert (H2 : Total (mkCounts 20 12 8) <= 100) by (simpl; lia).
  split; [exact H1|]. split; [exact H2|].
  apply (defaultCanTrip_exact (mkCounts 20 12 8) H1 H2).
Defined.

Lemma short_window_panics_witness :
  rollingWindow (breaker hollowSys) = []
  /\ @moveWindow nat string hollowSys = (Panicking SliceBoundsOutOfRange, hollowSys).
Proof.
  split; [reflexivity|].
  apply (short_window_panics (V := string) hollowSys). reflexivity.
Defined.

Lemma stateControler_never_trips_witness :
  0 < Total (mkCounts 11 11 0)
  /\ 0 <= Fail (mkCounts 11 11 0) <= Total (mkCounts 11 11 0)
  /\ StateControler.defaultCanTrip (mkCounts 11 11 0) = Some false
  /\ StateControler.defaultCanTrip zeroCounts = None.
Proof.
  assert (H1 : 0 < Total (mkCounts 11 11 0)) by (simpl; lia).
  assert (H2 : 0 <= Fail (mkCounts 11 11 0) <= Total (mkCounts 11 11 0))
    by (simpl; lia).
  split; [exact H1|]. split; [exact H2|]. split.
  - apply (stateControler_never_trips (mkCounts 11 11 0)); assumption.
  - apply (stateControler_never_trips zeroCounts). reflexivity.
Defined.
